(** * Excel Data Pool: a shallow embedding of [main.py] and [database.py]

    The development follows the layout of the service:
    - [Text]: Python [str] values as lists of Unicode code points, with
      [str.isdigit], [str.isspace] and [str.strip];
    - [Cleaner]: [clean_phone] and [clean_text];
    - [Dates]: calendar dates and [datetime.strptime(_, "%Y-%m-%d")];
    - [Store]: the two tables of [database.py] and the SQLAlchemy session
      ([autoflush=False]) that [upload_excel] drives;
    - [Upload]: the row loop of [upload_excel];
    - [Search]: the query, ordering and unique-only collapse of
      [search_applicants];
    - [Request]: the file type, parsing and column checks that come
      before the row loop;
    - [Listing]: [get_all_positions];
    - [Iso]: dates as the JSON answer writes them;
    - [Integrity]: what it means for the two tables to be well formed.

    The modules with [Facts] in their names prove the properties of the
    specification against these definitions; [UploadCases] and
    [SearchCases] run them on the data of [Samples]. *)

From stdpp Require Import base decidable option list sorting gmap strings.
From Stdlib Require Import ZArith NArith Lia.

Set Default Proof Using "Type".

(* ===================================================================== *)
(** * Text: Python [str] *)
(* ===================================================================== *)

Module Text.

(** A Python [str] is a sequence of Unicode code points. *)
Abbreviation str := (list N).

(** ASCII literals of the source, as code points. *)
Definition lit (s : string) : str :=
  Ascii.N_of_ascii <$> String.list_ascii_of_string s.
Global Arguments lit : simpl never.

Definition in_ranges (rs : list (N * N)) (c : N) : bool :=
  existsb (λ r, (fst r <=? c)%N && (c <=? snd r)%N) rs.

(** [str.isdigit]: the code points whose Unicode numeric type is Digit or
    Decimal (Unicode 14.0, as CPython's [unicodedata] has them). *)
Definition digit_ranges : list (N * N) :=
  [(48, 57); (178, 179); (185, 185); (1632, 1641); (1776, 1785);
   (1984, 1993); (2406, 2415); (2534, 2543); (2662, 2671); (2790, 2799);
   (2918, 2927); (3046, 3055); (3174, 3183); (3302, 3311); (3430, 3439);
   (3558, 3567); (3664, 3673); (3792, 3801); (3872, 3881); (4160, 4169);
   (4240, 4249); (4969, 4977); (6112, 6121); (6160, 6169); (6470, 6479);
   (6608, 6618); (6784, 6793); (6800, 6809); (6992, 7001); (7088, 7097);
   (7232, 7241); (7248, 7257); (8304, 8304); (8308, 8313); (8320, 8329);
   (9312, 9320); (9332, 9340); (9352, 9360); (9450, 9450); (9461, 9469);
   (9471, 9471); (10102, 10110); (10112, 10120); (10122, 10130);
   (42528, 42537); (43216, 43225); (43264, 43273); (43472, 43481);
   (43504, 43513); (43600, 43609); (44016, 44025); (65296, 65305);
   (66720, 66729); (68160, 68163); (68912, 68921); (69216, 69224);
   (69714, 69722); (69734, 69743); (69872, 69881); (69942, 69951);
   (70096, 70105); (70384, 70393); (70736, 70745); (70864, 70873);
   (71248, 71257); (71360, 71369); (71472, 71481); (71904, 71913);
   (72016, 72025); (72784, 72793); (73040, 73049); (73120, 73129);
   (92768, 92777); (92864, 92873); (93008, 93017); (120782, 120831);
   (123200, 123209); (123632, 123641); (125264, 125273); (127232, 127242);
   (130032, 130041)]%N.

Definition isdigit (c : N) : bool := in_ranges digit_ranges c.

(** [str.isspace] on one code point; [str.strip()] removes exactly these. *)
Definition space_ranges : list (N * N) :=
  [(9, 13); (28, 32); (133, 133); (160, 160); (5760, 5760); (8192, 8202);
   (8232, 8233); (8239, 8239); (8287, 8287); (12288, 12288)]%N.

Definition isspace (c : N) : bool := in_ranges space_ranges c.

(** [s.lstrip()], [s.rstrip()], [s.strip()]. *)
Fixpoint lstrip (s : str) : str :=
  match s with
  | [] => []
  | c :: s' => if isspace c then lstrip s' else s
  end.

Definition rstrip (s : str) : str := reverse (lstrip (reverse s)).

Definition strip (s : str) : str := rstrip (lstrip s).

(** [s.startswith(p)]. *)
Fixpoint startswith (p s : str) : bool :=
  match p, s with
  | [], _ => true
  | _ :: _, [] => false
  | a :: p', b :: s' => (a =? b)%N && startswith p' s'
  end.

(** [''.join(filter(str.isdigit, s))]. *)
Definition only_digits (s : str) : str := filter (λ c, isdigit c) s.

(** ASCII case folding, and [str.lower] as it acts on ASCII text. *)
Definition ascii_fold (c : N) : N :=
  if ((65 <=? c) && (c <=? 90))%N then (c + 32)%N else c.

Definition lower_ascii (s : str) : str := ascii_fold <$> s.

(** Truthiness of a [str]: non-empty. *)
Definition truthy (s : str) : bool :=
  match s with [] => false | _ :: _ => true end.

End Text.

(* ===================================================================== *)
(** * Cleaner: [clean_phone], [clean_text] *)
(* ===================================================================== *)

Module Cleaner.
Import Text.

(** A spreadsheet cell as the cleaners see it: [NaN] when [pd.isna] holds
    (empty cell, [None], [NaT]), otherwise [Text s] with [s] the value of
    [str(cell)]. *)
Inductive cell : Type :=
  | NaN
  | Text (s : str).

Definition clean_phone (phone : cell) : str :=
  match phone with
  | NaN => []
  | Text s =>
      let phone_str := strip s in
      let digits := only_digits phone_str in
      if startswith (lit "0") digits && (length digits =? 10)%nat then
        lit "+251" ++ drop 1 digits
      else if startswith (lit "251") digits && (length digits =? 12)%nat then
        lit "+" ++ digits
      else if startswith (lit "9") digits && (length digits =? 9)%nat then
        lit "+251" ++ digits
      else phone_str
  end.

Definition clean_text (text : cell) : str :=
  match text with
  | NaN => []
  | Text s => strip s
  end.

(** The four-branch description of phone normalization, written from the
    specification's words, to be compared with [clean_phone]. *)
Definition last_n (n : nat) (s : str) : str := drop (length s - n) s.

Inductive phone_spec : cell → str → Prop :=
  | spec_missing :
      phone_spec NaN []
  | spec_leading_zero s :
      let digits := only_digits (strip s) in
      startswith (lit "0") digits = true → length digits = 10%nat →
      phone_spec (Text s) (lit "+251" ++ last_n 9 digits)
  | spec_country_code s :
      let digits := only_digits (strip s) in
      startswith (lit "251") digits = true → length digits = 12%nat →
      phone_spec (Text s) (lit "+" ++ digits)
  | spec_mobile s :
      let digits := only_digits (strip s) in
      startswith (lit "9") digits = true → length digits = 9%nat →
      phone_spec (Text s) (lit "+251" ++ digits)
  | spec_otherwise s :
      let digits := only_digits (strip s) in
      ¬ (startswith (lit "0") digits = true ∧ length digits = 10%nat) →
      ¬ (startswith (lit "251") digits = true ∧ length digits = 12%nat) →
      ¬ (startswith (lit "9") digits = true ∧ length digits = 9%nat) →
      phone_spec (Text s) (strip s).

End Cleaner.

(* ===================================================================== *)
(** * Dates: [datetime.date] and [datetime.strptime(_, "%Y-%m-%d")] *)
(* ===================================================================== *)

Module Dates.
Import Text.

Record date : Type := Date { year : Z; month : Z; day : Z }.

(** Dates compare as [(year, month, day)] triples; the store compares the
    ISO text of a [Date] column, which orders the same way. *)
Definition date_le (a b : date) : Prop :=
  (year a < year b ∨
   (year a = year b ∧
    (month a < month b ∨ (month a = month b ∧ day a ≤ day b))))%Z.

#[export] Instance date_eq_dec : EqDecision date.
Proof. solve_decision. Defined.

#[export] Instance date_le_dec : RelDecision date_le.
Proof. intros a b. unfold date_le. apply _. Defined.

Definition is_leap (y : Z) : bool :=
  ((y mod 4 =? 0) && (negb (y mod 100 =? 0) || (y mod 400 =? 0)))%Z.

Definition days_in_month (y m : Z) : Z :=
  if (m =? 2)%Z then (if is_leap y then 29 else 28)%Z
  else if ((m =? 4) || (m =? 6) || (m =? 9) || (m =? 11))%Z then 30%Z
  else 31%Z.

(** [datetime.date(y, m, d)]; [None] stands for its [ValueError]. *)
Definition make_date (y m d : Z) : option date :=
  if ((1 <=? y) && (y <=? 9999) && (1 <=? m) && (m <=? 12) &&
      (1 <=? d) && (d <=? days_in_month y m))%Z
  then Some (Date y m d) else None.

(** The regular expression [_strptime] builds for ["%Y-%m-%d"]:
    [(?P<Y>\d\d\d\d)-(?P<m>1[0-2]|0[1-9]|[1-9])-(?P<d>3[0-1]|[1-2]\d|0[1-9]|[1-9]| [1-9])].
    A matcher returns its matches in the order a backtracking engine tries
    them, so the head of the list is the match [re.match] reports. *)
Definition matcher (A : Type) : Type := str → list (A * str).

(** [\d] on a [str] pattern: the decimal digits (category Nd, Unicode
    14.0); every block starts at a zero, so the value is the offset
    modulo ten, as [int()] reads it. *)
Definition decimal_ranges : list (N * N) :=
  [(48, 57); (1632, 1641); (1776, 1785); (1984, 1993); (2406, 2415);
   (2534, 2543); (2662, 2671); (2790, 2799); (2918, 2927); (3046, 3055);
   (3174, 3183); (3302, 3311); (3430, 3439); (3558, 3567); (3664, 3673);
   (3792, 3801); (3872, 3881); (4160, 4169); (4240, 4249); (6112, 6121);
   (6160, 6169); (6470, 6479); (6608, 6617); (6784, 6793); (6800, 6809);
   (6992, 7001); (7088, 7097); (7232, 7241); (7248, 7257); (42528, 42537);
   (43216, 43225); (43264, 43273); (43472, 43481); (43504, 43513);
   (43600, 43609); (44016, 44025); (65296, 65305); (66720, 66729);
   (68912, 68921); (69734, 69743); (69872, 69881); (69942, 69951);
   (70096, 70105); (70384, 70393); (70736, 70745); (70864, 70873);
   (71248, 71257); (71360, 71369); (71472, 71481); (71904, 71913);
   (72016, 72025); (72784, 72793); (73040, 73049); (73120, 73129);
   (92768, 92777); (92864, 92873); (93008, 93017); (120782, 120831);
   (123200, 123209); (123632, 123641); (125264, 125273);
   (130032, 130041)]%N.

Definition decimal_value (c : N) : option Z :=
  (λ r, Z.of_N ((c - fst r) mod 10)) <$>
  List.find (λ r, (fst r <=? c)%N && (c <=? snd r)%N) decimal_ranges.

Definition re_d : matcher Z := λ s,
  match s with
  | c :: s' => match decimal_value c with Some v => [(v, s')] | None => [] end
  | [] => []
  end.

(** An ASCII digit class such as [[1-9]], with bounds given as digits. *)
Definition re_class (lo hi : N) : matcher Z := λ s,
  match s with
  | c :: s' =>
      if ((48 + lo <=? c) && (c <=? 48 + hi))%N
      then [(Z.of_N (c - 48), s')] else []
  | [] => []
  end.

Definition re_lit (l : str) : matcher unit := λ s,
  if startswith l s then [(tt, drop (length l) s)] else [].

Definition re_seq2 (p q : matcher Z) : matcher Z := λ s,
  '(a, s1) ← p s; '(b, s2) ← q s1; [((10 * a + b)%Z, s2)].

Definition re_Y : matcher Z :=
  re_seq2 (re_seq2 (re_seq2 re_d re_d) re_d) re_d.

Definition re_m : matcher Z := λ s,
  re_seq2 (re_class 1 1) (re_class 0 2) s ++
  re_seq2 (re_class 0 0) (re_class 1 9) s ++
  re_class 1 9 s.

Definition re_dd : matcher Z := λ s,
  re_seq2 (re_class 3 3) (re_class 0 1) s ++
  re_seq2 (re_class 1 2) re_d s ++
  re_seq2 (re_class 0 0) (re_class 1 9) s ++
  re_class 1 9 s ++
  ('(_, s1) ← re_lit (lit " ") s; re_class 1 9 s1).

Definition re_format : matcher (Z * Z * Z) := λ s,
  '(y, s1) ← re_Y s; '(_, s2) ← re_lit (lit "-") s1;
  '(m, s3) ← re_m s2; '(_, s4) ← re_lit (lit "-") s3;
  '(d, s5) ← re_dd s4; [((y, m, d), s5)].

(** [datetime.strptime(s, "%Y-%m-%d").date()]; [None] stands for the
    [ValueError] raised when the text does not match, when unconverted
    data remains, or when the fields are not a calendar date. *)
Definition strptime (s : str) : option date :=
  match head (re_format s) with
  | Some ((y, m, d), []) => make_date y m d
  | _ => None
  end.

End Dates.

(* ===================================================================== *)
(** * Store: the tables of [database.py] and the session *)
(* ===================================================================== *)

Module Applicant.
Import Text.
(** A row of [applicants]. *)
Record t : Type := Build
  { id : Z; full_name : str; phone : str; labor_id : str }.
#[export] Instance eq_dec : EqDecision t.
Proof. solve_decision. Defined.
End Applicant.

Module Application.
Import Text Dates.
(** A row of [applications]. *)
Record t : Type := Build
  { id : Z; applicant_id : Z; position : str;
    application_date : date; source_file : str }.
#[export] Instance eq_dec : EqDecision t.
Proof. solve_decision. Defined.

(** An [Application(...)] object that was added to the session and not
    flushed yet: it has no primary key. *)
Record pending : Type := New
  { new_applicant_id : Z; new_position : str;
    new_application_date : date; new_source_file : str }.
End Application.

Module Store.
Import Text Dates.

(** The committed tables, rows in rowid order. *)
Record DB : Type := Tables
  { applicants : list Applicant.t; applications : list Application.t }.

(** What the session can raise. *)
Inductive exn : Type :=
  | IntegrityError.

(** SQLite gives an [INTEGER PRIMARY KEY] the largest key in use plus
    one, and 1 to the first row. *)
Definition next_id (ids : list Z) : Z := (1 + foldr Z.max 0 ids)%Z.

(** [db.query(Applicant).filter(Applicant.phone == phone).first()] *)
Definition first_by_phone (db : DB) (phone : str) : option Applicant.t :=
  List.find (λ a, bool_decide (Applicant.phone a = phone)) (applicants db).

(** [db.query(Applicant).filter(Applicant.labor_id == labor_id).first()] *)
Definition first_by_labor_id (db : DB) (labor_id : str) : option Applicant.t :=
  List.find (λ a, bool_decide (Applicant.labor_id a = labor_id)) (applicants db).

(** [INSERT INTO applicants]: the column [phone] is declared
    [unique=True], for every value, the empty text included. *)
Definition insert_applicant (db : DB) (full_name phone labor_id : str)
  : exn + (DB * Applicant.t) :=
  if existsb (λ a, bool_decide (Applicant.phone a = phone)) (applicants db)
  then inl IntegrityError
  else
    let a := Applicant.Build (next_id (Applicant.id <$> applicants db))
                             full_name phone labor_id in
    inr (Tables (applicants db ++ [a]) (applications db), a).

(** [INSERT INTO applications]: no constraint can fail (SQLite does not
    enforce the foreign key). *)
Definition insert_application (db : DB) (p : Application.pending) : DB :=
  let app := Application.Build (next_id (Application.id <$> applications db))
               (Application.new_applicant_id p) (Application.new_position p)
               (Application.new_application_date p)
               (Application.new_source_file p) in
  Tables (applicants db) (applications db ++ [app]).

Definition insert_applications (db : DB) (ps : list Application.pending) : DB :=
  foldl insert_application db ps.

(** A [SessionLocal()] session with [autoflush=False]: the committed
    tables and the objects added since the last commit. Queries read the
    tables only. *)
Record Session : Type := Sess
  { persisted : DB; new : list Application.pending }.

Definition open (db : DB) : Session := Sess db [].

(** [db.add(application)] *)
Definition add (s : Session) (p : Application.pending) : Session :=
  Sess (persisted s) (new s ++ [p]).

(** [db.add(applicant); db.commit(); db.refresh(applicant)]: the flush
    inserts the applicant first (applications depend on applicants), then
    the pending applications, and commits. When the insert fails the
    transaction is undone and the exception leaves the session as it
    was. *)
Definition add_commit_refresh (s : Session) (full_name phone labor_id : str)
  : exn + (Session * Applicant.t) :=
  match insert_applicant (persisted s) full_name phone labor_id with
  | inl e => inl e
  | inr (db', a) => inr (Sess (insert_applications db' (new s)) [], a)
  end.

(** The tables once the pending applications are flushed. *)
Definition flushed (s : Session) : DB :=
  insert_applications (persisted s) (new s).

(** [db.commit()] with only applications pending. *)
Definition commit (s : Session) : exn + Session :=
  inr (Sess (flushed s) []).

(** [db.rollback()] *)
Definition rollback (s : Session) : Session := Sess (persisted s) [].

(** The invariant of the applicants table: no two rows share a non-empty
    phone. *)
Definition phones_distinct (db : DB) : Prop :=
  NoDup (filter (λ p, p ≠ []) (Applicant.phone <$> applicants db)).

End Store.

(* ===================================================================== *)
(** * Upload: the row loop of [upload_excel] *)
(* ===================================================================== *)

Module Upload.
Import Text Cleaner Dates Store.

(** One row of the data frame, by column: [row.get(PHONE_COL)],
    [row.get(LABOR_ID_COL, "")], [row.get(NAME_COL)],
    [row.get(POSITION_COL, "")]. For the date column the row carries
    [Some d] when the cell is present and [pd.to_datetime(cell).date()]
    yields [d], and [None] when the cell is missing or the conversion
    raises. *)
Record Row : Type := MkRow
  { phone_cell : cell; labor_id_cell : cell; name_cell : cell;
    position_cell : cell; date_cell : option date }.

Record Stats : Type := MkStats
  { new_applicants : Z; existing_applicants : Z; applications_added : Z }.

Definition stats0 : Stats := MkStats 0 0 0.

(** The state of the [try] block: it either goes on with the session and
    the counters, or an exception is on its way to the handler, the
    session being what the statements before it made of it. *)
Inductive outcome : Type :=
  | Done (s : Session) (stats : Stats)
  | Raised (e : exn) (s : Session).

Definition session_of (o : outcome) : Session :=
  match o with Done s _ => s | Raised _ s => s end.

(** What the endpoint answers. *)
Inductive detail : Type :=
  | Database_error (e : exn).

Inductive response : Type :=
  | Success (stats : Stats) (filename : str)
  | HTTPException (status_code : Z) (d : detail).

Section WithRuntime.
(** [str.lower] and [date.today()]. *)
Variable lower : str → str.
Variable today : date.

(** Lines 127-135: the lookup by phone, then by labor id. *)
Definition find_applicant (s : Session) (phone labor_id : str)
  : option Applicant.t :=
  let applicant :=
    if truthy phone then first_by_phone (persisted s) phone else None in
  if negb (bool_decide (is_Some applicant)) && truthy labor_id
  then first_by_labor_id (persisted s) labor_id
  else applicant.

(** The body of the [for] loop, lines 108-159. *)
Definition process_row (filename : str) (s : Session) (stats : Stats)
    (row : Row) : outcome :=
  let phone := clean_phone (phone_cell row) in
  let labor_id := clean_text (labor_id_cell row) in
  let full_name := clean_text (name_cell row) in
  let position := lower (clean_text (position_cell row)) in
  let app_date := default today (date_cell row) in
  match find_applicant s phone labor_id with
  | Some applicant =>
      Done (add s (Application.New (Applicant.id applicant) position
                                   app_date filename))
           (MkStats (new_applicants stats) (existing_applicants stats + 1)
                    (applications_added stats + 1))
  | None =>
      match add_commit_refresh s full_name phone labor_id with
      | inl e => Raised e s
      | inr (s', applicant) =>
          Done (add s' (Application.New (Applicant.id applicant) position
                                        app_date filename))
               (MkStats (new_applicants stats + 1) (existing_applicants stats)
                        (applications_added stats + 1))
      end
  end.

Fixpoint row_loop (filename : str) (s : Session) (stats : Stats)
    (rows : list Row) : outcome :=
  match rows with
  | [] => Done s stats
  | row :: rows' =>
      match process_row filename s stats row with
      | Done s' stats' => row_loop filename s' stats' rows'
      | Raised e s' => Raised e s'
      end
  end.

(** Lines 99-174, for a frame that passed the column check: the answer
    and the tables the request leaves behind. *)
Definition upload_excel (db : DB) (filename : str) (rows : list Row)
  : response * DB :=
  let handler e s :=
    (HTTPException 500 (Database_error e), persisted (rollback s)) in
  match row_loop filename (open db) stats0 rows with
  | Done s stats =>
      match commit s with
      | inr s' => (Success stats filename, persisted s')
      | inl e => handler e s
      end
  | Raised e s => handler e s
  end.


(** ** The course of one row, for the proofs *)

(** The application a row adds for the applicant it resolved to. *)
Definition application_of (filename : str) (row : Row) (a : Applicant.t)
  : Application.pending :=
  Application.New (Applicant.id a) (lower (clean_text (position_cell row)))
                  (default today (date_cell row)) filename.

Definition found_stats (stats : Stats) : Stats :=
  MkStats (new_applicants stats) (existing_applicants stats + 1)
          (applications_added stats + 1).

Definition created_stats (stats : Stats) : Stats :=
  MkStats (new_applicants stats + 1) (existing_applicants stats)
          (applications_added stats + 1).

(** The three ways a row can end. *)
Inductive row_step (filename : str) (s : Session) (stats : Stats) (row : Row)
  : outcome → Prop :=
  | step_found a :
      find_applicant s (clean_phone (phone_cell row))
                     (clean_text (labor_id_cell row)) = Some a →
      row_step filename s stats row
        (Done (add s (application_of filename row a)) (found_stats stats))
  | step_created :
      let phone := clean_phone (phone_cell row) in
      let labor_id := clean_text (labor_id_cell row) in
      let a := Applicant.Build
                 (next_id (Applicant.id <$> applicants (persisted s)))
                 (clean_text (name_cell row)) phone labor_id in
      find_applicant s phone labor_id = None →
      (∀ b, b ∈ applicants (persisted s) → Applicant.phone b ≠ phone) →
      row_step filename s stats row
        (Done (add (Sess (insert_applications
                            (Tables (applicants (persisted s) ++ [a])
                                    (applications (persisted s))) (new s)) [])
                   (application_of filename row a))
              (created_stats stats))
  | step_refused b :
      find_applicant s (clean_phone (phone_cell row))
                     (clean_text (labor_id_cell row)) = None →
      clean_phone (phone_cell row) = [] →
      b ∈ applicants (persisted s) → Applicant.phone b = [] →
      row_step filename s stats row (Raised IntegrityError s).


(** ** Properties in the specification's words, to be set against the code *)

(** Whole-file atomicity: a request that fails leaves the tables as they
    were before the batch. *)
Definition atomic_on_failure (db : DB) (filename : str) (rows : list Row)
  : Prop :=
  ∀ status d db',
    upload_excel db filename rows = (HTTPException status d, db') → db' = db.

(** The lookup order, with a creation that always goes through: a phone
    match is returned and nothing is created; failing that, a labor id
    match is returned; failing that, a new applicant with the cleaned
    fields joins the table. *)
Definition resolves_in_order (filename : str) (s : Session) (stats : Stats)
    (row : Row) : Prop :=
  let phone := clean_phone (phone_cell row) in
  let labor_id := clean_text (labor_id_cell row) in
  let full_name := clean_text (name_cell row) in
  (∀ a, phone ≠ [] → first_by_phone (persisted s) phone = Some a →
     process_row filename s stats row =
     Done (add s (application_of filename row a)) (found_stats stats))
  ∧ (∀ a, phone = [] ∨ first_by_phone (persisted s) phone = None →
     labor_id ≠ [] → first_by_labor_id (persisted s) labor_id = Some a →
     process_row filename s stats row =
     Done (add s (application_of filename row a)) (found_stats stats))
  ∧ (phone = [] ∨ first_by_phone (persisted s) phone = None →
     labor_id = [] ∨ first_by_labor_id (persisted s) labor_id = None →
     ∃ s' a, process_row filename s stats row = Done s' (created_stats stats)
       ∧ applicants (persisted s') = applicants (persisted s) ++ [a]
       ∧ Applicant.phone a = phone ∧ Applicant.labor_id a = labor_id
       ∧ Applicant.full_name a = full_name
       ∧ new s' = [application_of filename row a]).

(** The application appended for the row at index [i] of a batch. *)
Definition application_at (db db' : DB) (i : nat) : option Application.t :=
  applications db' !! (length (applications db) + i)%nat.

(** One applicant for a phone that two rows of the batch share: after the
    request, exactly one applicant carries the phone, it is new, and the
    applications of both rows point to it. *)
Definition one_applicant_for_phone (db : DB) (filename : str)
    (pre : list Row) (r1 : Row) (mid : list Row) (r2 : Row) (post : list Row)
  : Prop :=
  let phone := clean_phone (phone_cell r1) in
  let db' := snd (upload_excel db filename (pre ++ r1 :: mid ++ r2 :: post)) in
  ∃ a app1 app2,
    filter (λ b, Applicant.phone b = phone) (applicants db') = [a]
    ∧ (a ∉ applicants db)
    ∧ application_at db db' (length pre) = Some app1
    ∧ application_at db db' (length pre + 1 + length mid) = Some app2
    ∧ Application.applicant_id app1 = Applicant.id a
    ∧ Application.applicant_id app2 = Applicant.id a.

(** The same, promised for any two rows whose cleaned phones are equal,
    non-empty and unknown to the store. *)
Definition repeated_phone_as_stated (db : DB) (filename : str)
    (pre : list Row) (r1 : Row) (mid : list Row) (r2 : Row) (post : list Row)
  : Prop :=
  let phone := clean_phone (phone_cell r1) in
  clean_phone (phone_cell r2) = phone → phone ≠ [] →
  (∀ b, b ∈ applicants db → Applicant.phone b ≠ phone) →
  one_applicant_for_phone db filename pre r1 mid r2 post.

End WithRuntime.
End Upload.

(* ===================================================================== *)
(** * Search: [search_applicants] *)
(* ===================================================================== *)

Module Search.
Import Text Dates Store.

(** SQLite's [LIKE]: [%] matches any run of characters, [_] any one
    character, and ASCII letters match without regard to case. *)

Fixpoint like (pattern text : str) {struct pattern} : bool :=
  match pattern with
  | [] => bool_decide (text = [])
  | c :: pattern' =>
      if (c =? 37)%N then
        (fix any (text : str) : bool :=
           like pattern' text ||
           match text with [] => false | _ :: text' => any text' end) text
      else
        match text with
        | [] => false
        | d :: text' =>
            ((c =? 95)%N || (ascii_fold c =? ascii_fold d)%N) &&
            like pattern' text'
        end
  end.

(** [column.contains(other)], rendered as [column LIKE '%' || other || '%']. *)
Definition contains (column other : str) : bool :=
  like (lit "%" ++ other ++ lit "%") column.

(** [db.query(Application, Applicant).join(Applicant)]: the inner join on
    [applications.applicant_id = applicants.id]. *)
Definition join (db : DB) : list (Application.t * Applicant.t) :=
  app ← applications db;
  a ← filter (λ a, Applicant.id a = Application.applicant_id app) (applicants db);
  [(app, a)].

(** What leaves the handler by [raise]. *)
Inductive raised : Type :=
  | HTTPException (status_code : Z) (detail : str)
  | ValueError.

(** One of the dictionaries appended to [data] or to [records]. *)
Record Entry : Type := MkEntry
  { e_full_name : str; e_phone : str; e_labor_id : str;
    e_position : str; e_application_date : date; e_source_file : str }.

Inductive body : Type :=
  | JSONResponse (count : nat) (position : str) (applicants : list Entry)
  | FileResponse (records : list Entry).

(** The status the client sees: 200 for a returned body, the code of an
    [HTTPException], and 500 for any other exception that leaves the
    handler. *)
Definition status (r : raised + body) : Z :=
  match r with
  | inr _ => 200
  | inl (HTTPException c _) => c
  | inl ValueError => 500
  end.

Definition client_error (c : Z) : Prop := (400 ≤ c < 500)%Z.

(** Lines 196-197 and 200-201: a bound is read only when the form field
    is a non-empty text. *)
Definition parse_bound (field : option str) : raised + option date :=
  match field with
  | Some text =>
      if truthy text then
        match strptime text with
        | Some d => inr (Some d)
        | None => inl ValueError
        end
      else inr None
  | None => inr None
  end.

Definition on_or_after (start : option date) (d : date) : Prop :=
  match start with Some b => date_le b d | None => True end.

Definition on_or_before (end_ : option date) (d : date) : Prop :=
  match end_ with Some b => date_le d b | None => True end.

#[export] Instance on_or_after_dec start d : Decision (on_or_after start d).
Proof. destruct start; simpl; apply _. Defined.

#[export] Instance on_or_before_dec end_ d : Decision (on_or_before end_ d).
Proof. destruct end_; simpl; apply _. Defined.

(** The [WHERE] clause: position, then [>= start], then [<= end]. *)
Definition selected (position_lower : str) (start end_ : option date)
    (r : Application.t * Applicant.t) : Prop :=
  contains (Application.position (fst r)) position_lower
  ∧ on_or_after start (Application.application_date (fst r))
  ∧ on_or_before end_ (Application.application_date (fst r)).

#[export] Instance selected_dec q start end_ r : Decision (selected q start end_ r).
Proof. unfold selected. apply _. Defined.

(** [Application.application_date.desc()] *)
Definition date_desc (x y : Application.t * Applicant.t) : Prop :=
  date_le (Application.application_date (fst y))
          (Application.application_date (fst x)).

#[export] Instance date_desc_dec : RelDecision date_desc.
Proof. intros x y. unfold date_desc. apply _. Defined.

(** Line 212: [applicant.phone or applicant.labor_id or applicant.full_name] *)
Definition applicant_key (a : Applicant.t) : str :=
  if truthy (Applicant.phone a) then Applicant.phone a
  else if truthy (Applicant.labor_id a) then Applicant.labor_id a
  else Applicant.full_name a.

(** Lines 209-216: one step of the loop over [results], on the pair
    [(seen_applicants, unique_results)]. *)
Definition unique_step
    (acc : gset str * list (Application.t * Applicant.t))
    (r : Application.t * Applicant.t)
  : gset str * list (Application.t * Applicant.t) :=
  let applicant_key := applicant_key (snd r) in
  if decide (applicant_key ∈ fst acc) then acc
  else ({[applicant_key]} ∪ fst acc, snd acc ++ [r]).

Definition unique_results (results : list (Application.t * Applicant.t))
  : list (Application.t * Applicant.t) :=
  snd (foldl unique_step (∅, []) results).

(** The same loop as a recursion on [results], for the proofs. *)
Fixpoint collapse (seen : gset str) (results : list (Application.t * Applicant.t))
  : list (Application.t * Applicant.t) :=
  match results with
  | [] => []
  | r :: rest =>
      if decide (applicant_key (snd r) ∈ seen) then collapse seen rest
      else r :: collapse ({[applicant_key (snd r)]} ∪ seen) rest
  end.

Definition entry (r : Application.t * Applicant.t) : Entry :=
  MkEntry (Applicant.full_name (snd r)) (Applicant.phone (snd r))
          (Applicant.labor_id (snd r)) (Application.position (fst r))
          (Application.application_date (fst r))
          (Application.source_file (fst r)).

Section WithRuntime.
(** [str.lower]. *)
Variable lower : str → str.

(** Lines 189-205: the filtered, ordered query. The engine leaves rows
    of one date in an order of its choosing; here it is the order a merge
    sort leaves. *)
Definition query (db : DB) (position : str) (start_date end_date : option str)
  : raised + list (Application.t * Applicant.t) :=
  let position_lower := strip (lower position) in
  match parse_bound start_date with
  | inl e => inl e
  | inr start =>
      match parse_bound end_date with
      | inl e => inl e
      | inr end_ =>
          inr (merge_sort date_desc
                 (filter (selected position_lower start end_) (join db)))
      end
  end.

(** Lines 189-216: [results] as the response is built from it. *)
Definition search_results (db : DB) (position : str)
    (start_date end_date : option str) (unique_only : bool)
  : raised + list (Application.t * Applicant.t) :=
  match query db position start_date end_date with
  | inl e => inl e
  | inr results =>
      inr (if unique_only then unique_results results else results)
  end.

(** The endpoint; the file written for the Excel answer is not modelled,
    only the records that go into it. *)
Definition search_applicants (db : DB) (position : str)
    (start_date end_date : option str) (unique_only : bool)
    (output_format : str) : raised + body :=
  match search_results db position start_date end_date unique_only with
  | inl e => inl e
  | inr results =>
      if bool_decide (output_format = lit "json") then
        let data := entry <$> results in
        inr (JSONResponse (length data) position data)
      else
        let records := entry <$> results in
        match records with
        | [] => inl (HTTPException 404 (lit "No applicants found for this position"))
        | _ => inr (FileResponse records)
        end
  end.

End WithRuntime.
End Search.

(* ===================================================================== *)
(** * The request around the row loop: file type, parsing, columns *)
(* ===================================================================== *)

Module Request.
Import Text Cleaner Dates Store Upload.

(** [s.endswith(suffix)]. *)
Definition endswith (suffix s : str) : bool :=
  startswith (reverse suffix) (reverse s).

(** [sep.join(parts)]. *)
Fixpoint join_with (sep : str) (parts : list str) : str :=
  match parts with
  | [] => []
  | [p] => p
  | p :: rest => p ++ sep ++ join_with sep rest
  end.

(** The column names of lines 27-31, as code points. *)
Definition POSITION_COL : str := [4840; 4661; 4651; 32; 4632; 4848; 4709]%N.
Definition DATE_COL : str :=
  [4840; 4632; 4632; 4829; 4872; 4706; 4843; 32; 4672; 4757]%N.
Definition PHONE_COL : str := [4661; 4621; 4781; 47; 4638; 4707; 4845; 4621]%N.
Definition LABOR_ID_COL : str :=
  [4840; 4656; 4651; 4720; 4763; 32; 4632; 4616; 4843; 32; 4673; 4901; 4653]%N.
Definition NAME_COL : str := [4633; 4617; 32; 4661; 4637]%N.

Definition required_cols : list str := [POSITION_COL; PHONE_COL; NAME_COL].

(** What [pd.read_excel] returns: the header, each name as [str(col)]
    gives it, and the rows as the loop reads them. *)
Record Frame : Type := MkFrame { columns : list str; rows : list Row }.

(** The answer of the endpoint: an [HTTPException] raised before the
    session is opened, or the answer of the row loop. *)
Inductive answer : Type :=
  | Rejected (status_code : Z) (message : str)
  | Processed (r : response).

(** Lines 95: the required columns the cleaned header lacks. *)
Definition missing_cols (header : list str) : list str :=
  filter (λ col, col ∉ strip <$> header) required_cols.

Section WithRuntime.
Variable lower : str → str.
Variable today : date.

(** Lines 75-174. [read] is the outcome of [pd.read_excel]: the frame,
    or the text of the exception it raised. *)
Definition upload_request (db : DB) (filename : str) (read : str + Frame)
  : answer * DB :=
  if negb (endswith (lit ".xlsx") filename || endswith (lit ".xls") filename)
  then (Rejected 400 (lit "File must be Excel (.xlsx or .xls)"), db)
  else
    match read with
    | inl e => (Rejected 400 (lit "Error reading Excel: " ++ e), db)
    | inr df =>
        match missing_cols (columns df) with
        | [] =>
            let '(r, db') := upload_excel lower today db filename (rows df) in
            (Processed r, db')
        | missing =>
            (Rejected 400 (lit "Missing columns: " ++
                           join_with (lit ", ") missing), db)
        end
    end.

End WithRuntime.
End Request.

(* ===================================================================== *)
(** * The listing of positions: [get_all_positions] *)
(* ===================================================================== *)

Module Listing.
Import Text Store.

(** The order of [sorted] on [str]: by code point, a prefix first. *)
Fixpoint str_leb (a b : str) : bool :=
  match a, b with
  | [], _ => true
  | _ :: _, [] => false
  | x :: a', y :: b' => (x <? y)%N || ((x =? y)%N && str_leb a' b')
  end.

Definition str_le (a b : str) : Prop := str_leb a b.

#[export] Instance str_le_dec : RelDecision str_le.
Proof. intros a b. unfold str_le. apply _. Defined.

(** Lines 326-328. [DISTINCT] drops repeated positions; [set] and
    [sorted] make the answer independent of the order the rows come in. *)
Definition get_all_positions (db : DB) : list str :=
  let positions := remove_dups (Application.position <$> applications db) in
  let position_list := filter (λ p, truthy p) positions in
  merge_sort str_le (elements (list_to_set position_list : gset str)).

End Listing.

(* ===================================================================== *)
(** * Dates as the JSON answer writes them *)
(* ===================================================================== *)

Module Iso.
Import Text Dates.

(** The decimal digits of [n], [width] of them, zeros first ([%0wd] for
    a number that fits). *)
Fixpoint zero_padded (width : nat) (n : Z) : str :=
  match width with
  | O => []
  | S w => zero_padded w (n / 10) ++ [(48 + Z.to_N (n mod 10))%N]
  end.

(** Line 227: [application_date.isoformat()], that is
    ["%04d-%02d-%02d"]. *)
Definition isoformat (d : date) : str :=
  zero_padded 4 (year d) ++ lit "-" ++ zero_padded 2 (month d) ++ lit "-"
  ++ zero_padded 2 (day d).

(** The part of [re_format] that follows the year. *)
Definition re_after_year (y : Z) : matcher (Z * Z * Z) := λ s1,
  '(_, s2) ← re_lit (lit "-") s1;
  '(m, s3) ← re_m s2; '(_, s4) ← re_lit (lit "-") s3;
  '(d, s5) ← re_dd s4; [((y, m, d), s5)].

End Iso.

(* ===================================================================== *)
(** * Well-formed tables *)
(* ===================================================================== *)

Module Integrity.
Import Text Cleaner Dates Store Upload.

(** Every application points to a stored applicant (the foreign key of
    [database.py], which SQLite does not enforce by itself). *)
Definition references_resolve (db : DB) : Prop :=
  ∀ app, app ∈ applications db →
    ∃ a, a ∈ applicants db ∧ Applicant.id a = Application.applicant_id app.

(** The primary keys of both tables are pairwise distinct. *)
Definition keys_distinct (db : DB) : Prop :=
  NoDup (Applicant.id <$> applicants db)
  ∧ NoDup (Application.id <$> applications db).

(** A row is known to a table when an applicant there carries its phone,
    or its labor id when it has one. *)
Definition known (A : list Applicant.t) (phone labor_id : str) : Prop :=
  (∃ a, a ∈ A ∧ Applicant.phone a = phone)
  ∨ (labor_id ≠ [] ∧ ∃ a, a ∈ A ∧ Applicant.labor_id a = labor_id).

(** The application a row adds has the row's position, lower-cased, the
    row's date or today, and the name of the file. *)
Definition carries (lower : str → str) (today : date) (filename : str)
    (row : Row) (app : Application.t) : Prop :=
  Application.position app = lower (clean_text (position_cell row))
  ∧ Application.application_date app = default today (date_cell row)
  ∧ Application.source_file app = filename.

End Integrity.

(* ===================================================================== *)
(** * Sample data for the worked cases *)
(* ===================================================================== *)

Module Samples.
Import Text Cleaner Dates Store Upload.

Definition day0 : date := Date 2024 1 10.
Definition file0 : str := lit "batch.xlsx".

(** A row with text in the phone, labor id and name columns. *)
Definition row (phone labor_id name : string) : Row :=
  MkRow (Text (lit phone)) (Text (lit labor_id)) (Text (lit name))
        (Text (lit "Driver")) None.

(** A row whose phone and labor id cells are empty. *)
Definition blank (name : string) : Row :=
  MkRow NaN NaN (Text (lit name)) (Text (lit "Driver")) None.

Definition empty_db : DB := Tables [] [].

(** One applicant on file, without a phone. *)
Definition no_phone : Applicant.t := Applicant.Build 1 (lit "Abebe") [] [].
Definition db_no_phone : DB := Tables [no_phone] [].

(** One applicant on file, with a phone and a labor id. *)
Definition known : Applicant.t :=
  Applicant.Build 1 (lit "Abebe") (lit "+251911000000") (lit "L1").
Definition db_known : DB := Tables [known] [].

(** One applicant with two applications for the same position, a month
    apart. *)
Definition abebe : Applicant.t :=
  Applicant.Build 1 (lit "Abebe") (lit "+251911223344") [].
Definition january : Application.t :=
  Application.Build 1 1 (lit "driver") (Date 2024 1 10) file0.
Definition february : Application.t :=
  Application.Build 2 1 (lit "driver") (Date 2024 2 5) file0.
Definition db_two : DB := Tables [abebe] [january; february].

(** Two positions on file, ingested in one order and in the other. *)
Definition march : Application.t :=
  Application.Build 3 1 (lit "guard") (Date 2024 3 1) file0.
Definition db_mixed : DB := Tables [abebe] [january; march; february].
Definition db_mixed_reversed : DB := Tables [abebe] [march; february; january].

(** Two rows with one number, spelled in two ways. *)
Definition two_rows : list Row :=
  [row "0911223344" "" "Abebe"; row "251911223344" "" "Abebe"].

(** A frame without the phone column, and one whose header has spaces
    around the names and neither labor id nor date column. *)
Definition frame_no_phone : Request.Frame :=
  Request.MkFrame [Request.POSITION_COL; Request.NAME_COL] two_rows.
Definition frame_spaced : Request.Frame :=
  Request.MkFrame [lit " " ++ Request.POSITION_COL; Request.PHONE_COL ++ lit "  ";
                   Request.NAME_COL] two_rows.

(** The session and the counters after a batch prefix that goes through. *)
Definition after (db : DB) (rows : list Row) : Session * Stats :=
  match row_loop lower_ascii day0 file0 (open db) stats0 rows with
  | Done s stats => (s, stats)
  | Raised _ s => (s, stats0)
  end.

End Samples.

Module TextFacts.
Import Text.

Lemma isdigit_not_space c : isdigit c = true → isspace c = false.
Proof.
  intros Hd. destruct (isspace c) eqn:Hs; [|done].
  unfold isspace, in_ranges in Hs. apply existsb_exists in Hs.
  destruct Hs as [[lo hi] [Hin Hr]]. simpl in Hr.
  apply andb_true_iff in Hr as [H1%N.leb_le H2%N.leb_le].
  unfold isdigit, in_ranges in Hd. apply existsb_exists in Hd.
  destruct Hd as [[lo' hi'] [Hin' Hr']]. simpl in Hr'.
  apply andb_true_iff in Hr' as [H1'%N.leb_le H2'%N.leb_le].
  assert (Hdisj : forallb (λ r, forallb (λ r', (snd r <? fst r')%N || (snd r' <? fst r)%N)
                                 digit_ranges) space_ranges = true)
    by (vm_compute; reflexivity).
  rewrite forallb_forall in Hdisj. specialize (Hdisj _ Hin).
  rewrite forallb_forall in Hdisj. specialize (Hdisj _ Hin'). simpl in Hdisj.
  apply orb_true_iff in Hdisj as [H%N.ltb_lt | H%N.ltb_lt]; lia.
Qed.

Lemma isdigit_not_space' c : isdigit c → isspace c = false.
Proof. intros H%Is_true_true. by apply isdigit_not_space. Qed.

Lemma lstrip_head s c : head (lstrip s) = Some c → isspace c = false.
Proof.
  induction s as [|a s IH]; simpl; [done|].
  destruct (isspace a) eqn:Ha; [done|]. simpl. by intros [= <-].
Qed.

Lemma lstrip_fix s :
  (∀ c, head s = Some c → isspace c = false) → lstrip s = s.
Proof.
  destruct s as [|a s]; simpl; [done|].
  intros H. by rewrite (H a eq_refl).
Qed.

Lemma lstrip_suffix s : ∃ w, s = w ++ lstrip s.
Proof.
  induction s as [|a s [w IH]]; simpl; [by exists []|].
  destruct (isspace a).
  - exists (a :: w). simpl. by f_equal.
  - by exists [].
Qed.

Lemma rstrip_prefix s : ∃ w, s = rstrip s ++ w.
Proof.
  destruct (lstrip_suffix (reverse s)) as [w Hw].
  exists (reverse w). unfold rstrip.
  rewrite <- reverse_app, <- Hw. by rewrite reverse_involutive.
Qed.

Lemma rstrip_last s c : last (rstrip s) = Some c → isspace c = false.
Proof. unfold rstrip. rewrite last_reverse. apply lstrip_head. Qed.

Lemma rstrip_fix s :
  (∀ c, last s = Some c → isspace c = false) → rstrip s = s.
Proof.
  intros H. unfold rstrip. rewrite lstrip_fix.
  - apply reverse_involutive.
  - intros c. rewrite head_reverse. apply H.
Qed.

Lemma rstrip_head s c :
  (∀ c, head s = Some c → isspace c = false) →
  head (rstrip s) = Some c → isspace c = false.
Proof.
  intros H Hc. apply H. destruct (rstrip_prefix s) as [w Hw].
  rewrite Hw. destruct (rstrip s); [done|]. exact Hc.
Qed.

Lemma strip_head s c : head (strip s) = Some c → isspace c = false.
Proof. apply rstrip_head. intros c'. apply lstrip_head. Qed.

Lemma strip_last s c : last (strip s) = Some c → isspace c = false.
Proof. apply rstrip_last. Qed.

Lemma strip_fix s :
  (∀ c, head s = Some c → isspace c = false) →
  (∀ c, last s = Some c → isspace c = false) →
  strip s = s.
Proof.
  intros Hh Hl. unfold strip. rewrite (lstrip_fix s Hh). by apply rstrip_fix.
Qed.

Lemma strip_idemp s : strip (strip s) = strip s.
Proof. apply strip_fix; [apply strip_head | apply strip_last]. Qed.

Lemma only_digits_Forall s : Forall (λ c, isdigit c) (only_digits s).
Proof. apply Forall_forall. intros c Hc. by apply list_elem_of_filter in Hc as [? _]. Qed.

Lemma only_digits_id s : Forall (λ c, isdigit c) s → only_digits s = s.
Proof.
  induction 1 as [|c s Hc _ IH]; [done|].
  unfold only_digits in *. rewrite filter_cons_True by done. by f_equal.
Qed.

Lemma only_digits_app s t : only_digits (s ++ t) = only_digits s ++ only_digits t.
Proof. apply filter_app. Qed.

(** A text that opens with a plus sign and closes with a digit has
    nothing for [strip] to remove. *)
Lemma strip_plus_digits d :
  d ≠ [] → Forall (λ c, isdigit c) d → strip (lit "+" ++ d) = lit "+" ++ d.
Proof.
  intros Hne Hd. apply strip_fix.
  - simpl. by intros c [= <-].
  - intros c Hc. rewrite last_app in Hc.
    destruct (last d) as [x|] eqn:Hl.
    + injection Hc as <-. apply isdigit_not_space'.
      rewrite Forall_forall in Hd. apply Hd.
      apply last_Some in Hl as [l' ->]. set_solver.
    + by apply last_None in Hl.
Qed.

End TextFacts.

(* ===================================================================== *)
(** * Phone normalization *)
(* ===================================================================== *)

Module CleanerFacts.
Import Text Cleaner TextFacts.

Lemma startswith_app p s : startswith p (p ++ s) = true.
Proof. induction p as [|a p IH]; simpl; [done|]. by rewrite N.eqb_refl. Qed.

(** The code keeps [digits[1:]], the specification the last nine digits
    of ten. *)
Lemma last_n_drop1 (s : str) : length s = 10%nat → last_n 9 s = drop 1 s.
Proof. intros H. unfold last_n. by rewrite H. Qed.

Lemma lit_251_digits : Forall (λ c, isdigit c) (lit "251").
Proof. change (lit "251") with [50; 53; 49]%N. repeat constructor. Qed.

(** A plus sign before twelve digits that open with 251 is a fixed point. *)
Lemma clean_phone_canonical d :
  Forall (λ c, isdigit c) d → startswith (lit "251") d = true →
  length d = 12%nat → clean_phone (Text (lit "+" ++ d)) = lit "+" ++ d.
Proof.
  intros Hd Hs Hl. unfold clean_phone.
  rewrite strip_plus_digits by (done || by destruct d).
  rewrite only_digits_app, (only_digits_id d Hd).
  change (only_digits (lit "+") ++ d) with d.
  rewrite Hs, Hl. change (12 =? 10)%nat with false.
  by rewrite andb_false_r.
Qed.

Ltac case_branch prefix n :=
  match goal with
  | |- context [startswith (lit prefix) ?d && (length ?d =? n)%nat] =>
      let E := fresh "E" in
      destruct (startswith (lit prefix) d) eqn:E;
      destruct (Nat.eqb_spec (length d) n);
      cbn [andb]
  end.

Lemma phone_spec_clean_phone phone : phone_spec phone (clean_phone phone).
Proof.
  destruct phone as [|s]; [constructor|]. unfold clean_phone.
  case_branch "0" 10%nat.
  1: { rewrite <- last_n_drop1 by done. by apply spec_leading_zero. }
  all: case_branch "251" 12%nat; try (by apply spec_country_code).
  all: case_branch "9" 9%nat; try (by apply spec_mobile).
  all: apply spec_otherwise; intros [? ?]; congruence.
Qed.

Lemma phone_spec_functional phone r1 r2 :
  phone_spec phone r1 → phone_spec phone r2 → r1 = r2.
Proof.
  intros H1 H2.
  inversion H1; subst; inversion H2; subst;
    repeat match goal with d := _ |- _ => subst d end;
    try done; try lia; try tauto; congruence.
Qed.

(** C5. [clean_phone] is the four-branch normalization of the
    specification: a missing value gives the empty text; ten digits that
    open with 0 give +251 and the last nine; twelve digits that open with
    251 give + and the digits; nine digits that open with 9 give +251 and
    the digits; anything else gives the trimmed input unchanged. The
    relation [phone_spec], written from the specification's words, holds
    of an input and a result exactly when [clean_phone] returns that
    result. *)
Theorem clean_phone_four_branches phone r :
  phone_spec phone r ↔ clean_phone phone = r.
Proof.
  split.
  - intros H. eapply phone_spec_functional; [apply phone_spec_clean_phone|done].
  - intros <-. apply phone_spec_clean_phone.
Qed.

(** A result of [clean_phone] is left alone by a second pass. *)
Lemma clean_phone_twice phone :
  clean_phone (Text (clean_phone phone)) = clean_phone phone.
Proof.
  destruct (phone_spec_clean_phone phone) as [|s digits Hs Hl|s digits Hs Hl
                                              |s digits Hs Hl|s digits H1 H2 H3].
  - reflexivity.
  - rewrite last_n_drop1 by done.
    change (lit "+251" ++ drop 1 digits) with (lit "+" ++ (lit "251" ++ drop 1 digits)).
    apply clean_phone_canonical.
    + apply Forall_app. split; [apply lit_251_digits|].
      apply Forall_drop, only_digits_Forall.
    + apply startswith_app.
    + rewrite length_app, length_drop, Hl. reflexivity.
  - apply clean_phone_canonical; [apply only_digits_Forall|done..].
  - change (lit "+251" ++ digits) with (lit "+" ++ (lit "251" ++ digits)).
    apply clean_phone_canonical.
    + apply Forall_app. split; [apply lit_251_digits|].
      apply only_digits_Forall.
    + apply startswith_app.
    + rewrite length_app, Hl. reflexivity.
  - unfold clean_phone. rewrite strip_idemp. fold digits.
    case_branch "0" 10%nat; [tauto|..].
    all: case_branch "251" 12%nat; [tauto|..].
    all: case_branch "9" 9%nat; tauto.
Qed.

(** C6. Phone normalization is idempotent: normalizing the result of a
    normalization returns it unchanged, and so every text in the image
    of [clean_phone] is a fixed point. *)
Theorem clean_phone_idempotent :
  (∀ phone, clean_phone (Text (clean_phone phone)) = clean_phone phone)
  ∧ (∀ s phone, clean_phone phone = s → clean_phone (Text s) = s).
Proof.
  split; [apply clean_phone_twice|].
  intros s phone <-. apply clean_phone_twice.
Qed.

(** The numbers of the specification's examples. *)
Example clean_phone_local :
  clean_phone (Text (lit " 0911-223 344 ")) = lit "+251911223344".
Proof. reflexivity. Qed.

Example clean_phone_country_code :
  clean_phone (Text (lit "251911223344")) = lit "+251911223344"
  ∧ clean_phone (Text (lit "+251911223344")) = lit "+251911223344".
Proof. split; reflexivity. Qed.

Example clean_phone_mobile :
  clean_phone (Text (lit "911223344")) = lit "+251911223344".
Proof. reflexivity. Qed.

Example clean_phone_other :
  clean_phone (Text (lit " 12345 ")) = lit "12345" ∧ clean_phone NaN = [].
Proof. split; reflexivity. Qed.

End CleanerFacts.

(* ===================================================================== *)
(** * Dates *)
(* ===================================================================== *)

Module DatesFacts.
Import Text Dates.

#[export] Instance date_le_refl : Reflexive date_le.
Proof. intros [y m d]. unfold date_le. simpl. lia. Qed.

#[export] Instance date_le_trans : Transitive date_le.
Proof. intros [] [] []. unfold date_le. simpl. lia. Qed.

#[export] Instance date_le_total : Total date_le.
Proof. intros [] []. unfold date_le. simpl. lia. Qed.

Example strptime_iso : strptime (lit "2024-01-10") = Some (Date 2024 1 10).
Proof. reflexivity. Qed.

Example strptime_leap_day :
  strptime (lit "2024-02-29") = Some (Date 2024 2 29)
  ∧ strptime (lit "2023-02-29") = None.
Proof. split; reflexivity. Qed.

Example strptime_malformed :
  strptime (lit "10/01/2024") = None ∧ strptime (lit "not-a-date") = None
  ∧ strptime (lit "2024-01-311") = None.
Proof. repeat split; reflexivity. Qed.

End DatesFacts.

(* ===================================================================== *)
(** * The store *)
(* ===================================================================== *)

Module StoreFacts.
Import Text Store.

Lemma applicants_insert_application db p :
  applicants (insert_application db p) = applicants db.
Proof. reflexivity. Qed.

Lemma applicants_insert_applications ps db :
  applicants (insert_applications db ps) = applicants db.
Proof.
  unfold insert_applications. revert db.
  induction ps as [|p ps IH]; intros db; simpl; [done|]. by rewrite IH.
Qed.

Lemma insert_applications_app db ps qs :
  insert_applications db (ps ++ qs) =
  insert_applications (insert_applications db ps) qs.
Proof. apply foldl_app. Qed.

(** Inserting applications neither reads nor writes the applicants. *)
Lemma applications_insert_applications ps A A' X :
  applications (insert_applications (Tables A X) ps) =
  applications (insert_applications (Tables A' X) ps).
Proof.
  unfold insert_applications. revert X.
  induction ps as [|p ps IH]; intros X; simpl; [done|]. apply IH.
Qed.

Lemma applications_insert_applications_prefix ps db :
  ∃ new_rows, applications (insert_applications db ps) = applications db ++ new_rows
              ∧ length new_rows = length ps.
Proof.
  unfold insert_applications. revert db.
  induction ps as [|p ps IH]; intros db; simpl.
  - exists []. by rewrite app_nil_r.
  - destruct (IH (insert_application db p)) as [rows [-> Hl]]. simpl.
    eexists (_ :: rows). rewrite <- app_assoc. simpl. split; [done|].
    by rewrite Hl.
Qed.

Lemma flushed_add s p : flushed (add s p) = insert_application (flushed s) p.
Proof. unfold flushed, add. simpl. by rewrite insert_applications_app. Qed.

Lemma flushed_open db : flushed (open db) = db.
Proof. reflexivity. Qed.

Lemma applicants_flushed s : applicants (flushed s) = applicants (persisted s).
Proof. apply applicants_insert_applications. Qed.

(** The uniqueness check of the insert, read as a proposition. *)
Lemma phone_taken_spec db phone :
  existsb (λ a, bool_decide (Applicant.phone a = phone)) (applicants db) = true
  ↔ ∃ a, a ∈ applicants db ∧ Applicant.phone a = phone.
Proof.
  rewrite existsb_exists. split.
  - intros [a [Hin Ha]]. exists a. split; [by apply list_elem_of_In|].
    by apply bool_decide_eq_true in Ha.
  - intros [a [Hin Ha]]. exists a. split; [by apply list_elem_of_In|].
    by apply bool_decide_eq_true.
Qed.

Lemma insert_applicant_ok db full_name phone labor_id :
  (∀ a, a ∈ applicants db → Applicant.phone a ≠ phone) →
  insert_applicant db full_name phone labor_id =
  let a := Applicant.Build (next_id (Applicant.id <$> applicants db))
                           full_name phone labor_id in
  inr (Tables (applicants db ++ [a]) (applications db), a).
Proof.
  intros H. unfold insert_applicant.
  destruct (existsb _ _) eqn:E; [|done].
  apply phone_taken_spec in E as [a [Hin Ha]]. by destruct (H a Hin).
Qed.

Lemma insert_applicant_taken db full_name phone labor_id a :
  a ∈ applicants db → Applicant.phone a = phone →
  insert_applicant db full_name phone labor_id = inl IntegrityError.
Proof.
  intros Hin Ha. unfold insert_applicant.
  destruct (existsb _ _) eqn:E; [done|].
  apply not_true_iff_false in E. destruct E. apply phone_taken_spec. eauto.
Qed.

Lemma insert_applicant_inv db full_name phone labor_id db' a :
  insert_applicant db full_name phone labor_id = inr (db', a) →
  (∀ b, b ∈ applicants db → Applicant.phone b ≠ phone)
  ∧ a = Applicant.Build (next_id (Applicant.id <$> applicants db))
                        full_name phone labor_id
  ∧ db' = Tables (applicants db ++ [a]) (applications db).
Proof.
  unfold insert_applicant. destruct (existsb _ _) eqn:E; [done|].
  intros [= <- <-]. split; [|done].
  intros b Hb Hp. apply not_true_iff_false in E. destruct E.
  apply phone_taken_spec. eauto.
Qed.

Lemma first_by_phone_Some db phone a :
  first_by_phone db phone = Some a → a ∈ applicants db ∧ Applicant.phone a = phone.
Proof.
  intros [Hin Ha]%find_some. split; [by apply list_elem_of_In|].
  by apply bool_decide_eq_true in Ha.
Qed.

Lemma first_by_phone_None db phone :
  first_by_phone db phone = None ↔
  ∀ a, a ∈ applicants db → Applicant.phone a ≠ phone.
Proof.
  split.
  - intros H a Hin Ha. apply list_elem_of_In in Hin.
    pose proof (find_none _ _ H a Hin) as Hf. simpl in Hf.
    by apply bool_decide_eq_false in Hf.
  - intros H. destruct (first_by_phone db phone) as [a|] eqn:E; [|done].
    apply first_by_phone_Some in E as [Hin Ha]. by destruct (H a Hin).
Qed.

Lemma first_by_labor_id_Some db labor_id a :
  first_by_labor_id db labor_id = Some a →
  a ∈ applicants db ∧ Applicant.labor_id a = labor_id.
Proof.
  intros [Hin Ha]%find_some. split; [by apply list_elem_of_In|].
  by apply bool_decide_eq_true in Ha.
Qed.

Lemma phones_distinct_insert db full_name phone labor_id db' a :
  insert_applicant db full_name phone labor_id = inr (db', a) →
  phones_distinct db → phones_distinct db'.
Proof.
  intros (Hfree & -> & ->)%insert_applicant_inv. unfold phones_distinct. simpl.
  rewrite fmap_app, filter_app. intros Hnd. apply NoDup_app. split; [done|].
  split.
  - intros p [_ Hp]%list_elem_of_filter Hp'. simpl in Hp'.
    apply list_elem_of_fmap in Hp as [b [-> Hb]].
    destruct (decide (phone ≠ [])) as [Hne|He].
    + rewrite filter_cons_True in Hp' by done.
      apply list_elem_of_singleton in Hp'. by destruct (Hfree b Hb).
    + rewrite filter_cons_False in Hp' by done. by apply elem_of_nil in Hp'.
  - simpl. destruct (decide (phone ≠ [])).
    + rewrite filter_cons_True by done. apply NoDup_singleton.
    + rewrite filter_cons_False by done. apply NoDup_nil_2.
Qed.

End StoreFacts.

(* ===================================================================== *)
(** * The row loop *)
(* ===================================================================== *)

Module UploadFacts.
Import Text Cleaner Dates Store Upload StoreFacts.

Section WithRuntime.
Variable lower : str → str.
Variable today : date.
Variable filename : str.

Abbreviation process_row := (process_row lower today filename).
Abbreviation row_loop := (row_loop lower today filename).
Abbreviation upload_excel := (upload_excel lower today).
Abbreviation application_of := (application_of lower today filename).
Abbreviation row_step := (row_step lower today filename).

Lemma truthy_spec (s : str) : truthy s = true ↔ s ≠ [].
Proof. destruct s; simpl; split; done. Qed.

Lemma find_applicant_by_phone s phone labor_id a :
  phone ≠ [] → first_by_phone (persisted s) phone = Some a →
  find_applicant s phone labor_id = Some a.
Proof.
  intros Hp%truthy_spec Hf. unfold find_applicant. rewrite Hp, Hf.
  rewrite bool_decide_eq_true_2 by eauto. done.
Qed.

Lemma find_applicant_by_labor_id s phone labor_id :
  phone = [] ∨ first_by_phone (persisted s) phone = None →
  find_applicant s phone labor_id =
  if truthy labor_id then first_by_labor_id (persisted s) labor_id else None.
Proof.
  intros H. unfold find_applicant.
  assert ((if truthy phone then first_by_phone (persisted s) phone else None)
          = None) as ->.
  { destruct H as [->| ->]; [done|]. by destruct (truthy phone). }
  rewrite bool_decide_eq_false_2 by (by intros [? ?]). simpl.
  by destruct (truthy labor_id).
Qed.

Lemma find_applicant_elem_of s phone labor_id a :
  find_applicant s phone labor_id = Some a → a ∈ applicants (persisted s).
Proof.
  unfold find_applicant.
  destruct (truthy phone); [destruct (first_by_phone _ _) as [b|] eqn:E|]; simpl.
  - intros [= <-]. by apply first_by_phone_Some in E as [? _].
  - destruct (truthy labor_id); [|done].
    by intros [? _]%first_by_labor_id_Some.
  - destruct (truthy labor_id); [|done].
    by intros [? _]%first_by_labor_id_Some.
Qed.

(** When the lookup comes back empty for a non-empty phone, no stored
    applicant carries that phone. *)
Lemma find_applicant_None_phone s phone labor_id :
  find_applicant s phone labor_id = None → phone ≠ [] →
  ∀ a, a ∈ applicants (persisted s) → Applicant.phone a ≠ phone.
Proof.
  intros Hf Hp%truthy_spec. apply first_by_phone_None.
  unfold find_applicant in Hf. rewrite Hp in Hf.
  destruct (first_by_phone _ _) as [b|]; [|done].
  rewrite bool_decide_eq_true_2 in Hf by eauto. done.
Qed.

(** Under a key that singles out [a] among the stored applicants, a row
    with that phone resolves to [a]. *)
Lemma find_applicant_unique s phone labor_id a :
  phone ≠ [] → a ∈ applicants (persisted s) → Applicant.phone a = phone →
  (∀ b, b ∈ applicants (persisted s) → Applicant.phone b = phone → b = a) →
  find_applicant s phone labor_id = Some a.
Proof.
  intros Hp Hin Ha Huniq. apply find_applicant_by_phone; [done|].
  destruct (first_by_phone (persisted s) phone) as [b|] eqn:E.
  - apply first_by_phone_Some in E as [Hb Hbp]. f_equal. by apply Huniq.
  - rewrite first_by_phone_None in E. by destruct (E a Hin).
Qed.

(** ** One row *)

Lemma process_row_found s stats row a :
  find_applicant s (clean_phone (phone_cell row))
                 (clean_text (labor_id_cell row)) = Some a →
  process_row s stats row = Done (add s (application_of row a)) (found_stats stats).
Proof. intros H. unfold Upload.process_row. by rewrite H. Qed.

Lemma process_row_created s stats row :
  let phone := clean_phone (phone_cell row) in
  let labor_id := clean_text (labor_id_cell row) in
  let a := Applicant.Build (next_id (Applicant.id <$> applicants (persisted s)))
             (clean_text (name_cell row)) phone labor_id in
  find_applicant s phone labor_id = None →
  (∀ b, b ∈ applicants (persisted s) → Applicant.phone b ≠ phone) →
  process_row s stats row =
  Done (add (Sess (insert_applications
                     (Tables (applicants (persisted s) ++ [a])
                             (applications (persisted s))) (new s)) [])
            (application_of row a))
       (created_stats stats).
Proof.
  intros phone labor_id a Hf Hfree. unfold Upload.process_row.
  fold phone labor_id. rewrite Hf. unfold add_commit_refresh.
  rewrite insert_applicant_ok by done. done.
Qed.

Lemma process_row_refused s stats row b :
  let phone := clean_phone (phone_cell row) in
  let labor_id := clean_text (labor_id_cell row) in
  find_applicant s phone labor_id = None →
  b ∈ applicants (persisted s) → Applicant.phone b = phone →
  process_row s stats row = Raised IntegrityError s.
Proof.
  intros phone labor_id Hf Hin Hb. unfold Upload.process_row.
  fold phone labor_id. rewrite Hf. unfold add_commit_refresh.
  by rewrite (insert_applicant_taken _ _ _ _ b).
Qed.

Lemma process_row_step s stats row : row_step s stats row (process_row s stats row).
Proof.
  destruct (find_applicant s (clean_phone (phone_cell row))
                           (clean_text (labor_id_cell row))) as [a|] eqn:Hf.
  - rewrite (process_row_found _ _ _ a Hf). by constructor.
  - destruct (existsb (λ a, bool_decide (Applicant.phone a = clean_phone (phone_cell row)))
                      (applicants (persisted s))) eqn:E.
    + apply phone_taken_spec in E as [b [Hin Hb]].
      rewrite (process_row_refused _ _ _ b Hf Hin Hb).
      destruct (decide (clean_phone (phone_cell row) = [])) as [He|Hne].
      * apply (step_refused _ _ _ _ _ _ b); congruence.
      * by destruct (find_applicant_None_phone _ _ _ Hf Hne b Hin).
    + assert (∀ b, b ∈ applicants (persisted s) →
                   Applicant.phone b ≠ clean_phone (phone_cell row)) as Hfree.
      { intros b Hin Hb. apply not_true_iff_false in E. destruct E.
        apply phone_taken_spec. eauto. }
      rewrite (process_row_created _ _ _ Hf Hfree). by constructor.
Qed.

(** A row raises only through the uniqueness constraint, on an empty
    phone, and leaves the session as it found it. *)
Lemma process_row_Raised s stats row e s' :
  process_row s stats row = Raised e s' →
  e = IntegrityError ∧ s' = s ∧ clean_phone (phone_cell row) = []
  ∧ ∃ b, b ∈ applicants (persisted s) ∧ Applicant.phone b = [].
Proof.
  intros Heq. pose proof (process_row_step s stats row) as Hstep.
  rewrite Heq in Hstep. inversion Hstep; subst. eauto 10.
Qed.

(** What a row that goes through does to the committed tables and to
    the counter of new applicants. *)
Lemma process_row_Done s stats row s' stats' :
  process_row s stats row = Done s' stats' →
  (persisted s' = persisted s ∧ new_applicants stats' = new_applicants stats)
  ∨ (∃ a, applicants (persisted s') = applicants (persisted s) ++ [a]
          ∧ Applicant.phone a = clean_phone (phone_cell row)
          ∧ (∀ b, b ∈ applicants (persisted s) →
                  Applicant.phone b ≠ Applicant.phone a)
          ∧ (∃ rows, applications (persisted s') = applications (persisted s) ++ rows)
          ∧ new_applicants stats' = (new_applicants stats + 1)%Z).
Proof.
  intros Heq. pose proof (process_row_step s stats row) as Hstep.
  rewrite Heq in Hstep. inversion Hstep as [a Hf|phone labor_id a Hf Hfree|]; subst.
  - by left.
  - right. exists a. simpl. rewrite applicants_insert_applications. simpl.
    split_and!; [done..| |done].
    destruct (applications_insert_applications_prefix (new s)
                (Tables (applicants (persisted s) ++ [a])
                        (applications (persisted s)))) as [rows [Hr _]].
    by exists rows.
Qed.

(** ** The loop *)

Lemma row_loop_app pre post s stats :
  row_loop s stats (pre ++ post) =
  match row_loop s stats pre with
  | Done s' stats' => row_loop s' stats' post
  | Raised e s' => Raised e s'
  end.
Proof.
  revert s stats. induction pre as [|row pre IH]; intros s stats; simpl; [done|].
  destruct (process_row s stats row); [apply IH|done].
Qed.

Lemma row_loop_Raised rows s stats e s' :
  row_loop s stats rows = Raised e s' →
  ∃ pre row post s1 stats1,
    rows = pre ++ row :: post
    ∧ row_loop s stats pre = Done s1 stats1
    ∧ process_row s1 stats1 row = Raised e s'.
Proof.
  revert s stats. induction rows as [|row rows IH]; intros s stats; simpl; [done|].
  destruct (process_row s stats row) as [s1 stats1|e1 s1] eqn:E.
  - intros (pre & r & post & s2 & stats2 & -> & Hpre & Hr)%IH.
    exists (row :: pre), r, post, s2, stats2. simpl. by rewrite E.
  - intros [= -> ->]. by exists [], row, rows, s, stats.
Qed.

(** A property of the session that every row keeps is kept by the loop,
    however it ends. *)
Lemma row_loop_session_invariant (P : Session → Prop) rows :
  (∀ s stats row, row ∈ rows → P s → P (session_of (process_row s stats row))) →
  ∀ s stats, P s → P (session_of (row_loop s stats rows)).
Proof.
  induction rows as [|row rows IH]; intros Hstep s stats Hs; simpl; [done|].
  pose proof (Hstep s stats row (list_elem_of_here _ _) Hs) as H1.
  destruct (process_row s stats row) as [s1 stats1|e1 s1]; simpl in *; [|done].
  apply IH; [|done]. intros. apply Hstep; [by apply list_elem_of_further|done].
Qed.

(** Between two points of a loop that goes through, the counter of new
    applicants counts the rows added to the applicants table; the
    committed tables only grow, and stay as they were when nothing was
    created. *)
Lemma row_loop_Done rows s stats s' stats' :
  row_loop s stats rows = Done s' stats' →
  Z.of_nat (length (applicants (persisted s'))) =
    (Z.of_nat (length (applicants (persisted s)))
     + (new_applicants stats' - new_applicants stats))%Z
  ∧ (new_applicants stats ≤ new_applicants stats')%Z
  ∧ (new_applicants stats' = new_applicants stats → persisted s' = persisted s)
  ∧ applicants (persisted s) `prefix_of` applicants (persisted s')
  ∧ applications (persisted s) `prefix_of` applications (persisted s').
Proof.
  revert s stats. induction rows as [|row rows IH]; intros s stats; simpl.
  - intros [= <- <-]. repeat split; (done || lia).
  - destruct (process_row s stats row) as [s1 stats1|e1 s1] eqn:E; [|done].
    intros (Hlen & Hle & Hsame & Hpa & Hpx)%IH.
    apply process_row_Done in E
      as [[Hp Hn]|(a & Ha & _ & _ & [rs Hrs] & Hn)].
    + rewrite Hp, Hn in *. done.
    + rewrite Ha, length_app in Hlen. simpl in Hlen.
      repeat split; [lia|lia|lia| |].
      * etransitivity; [|done]. rewrite Ha. by apply prefix_app_r.
      * etransitivity; [|done]. rewrite Hrs. by apply prefix_app_r.
Qed.

(** The tables a request leaves behind. *)
Lemma upload_excel_tables db rows :
  snd (upload_excel db filename rows) =
  match row_loop (open db) stats0 rows with
  | Done s _ => flushed s
  | Raised _ s => persisted s
  end.
Proof. unfold Upload.upload_excel. by destruct (Upload.row_loop _ _ _ _ _ _). Qed.

Lemma upload_excel_Raised db pre row post s stats e s' :
  row_loop (open db) stats0 pre = Done s stats →
  process_row s stats row = Raised e s' →
  upload_excel db filename (pre ++ row :: post) =
  (HTTPException 500 (Database_error e), persisted s).
Proof.
  intros Hpre Hrow. unfold Upload.upload_excel.
  fold (row_loop (open db) stats0 (pre ++ row :: post)).
  rewrite row_loop_app, Hpre. simpl. rewrite Hrow.
  by apply process_row_Raised in Hrow as (_ & -> & _).
Qed.

(** A request fails only because a row raised. *)
Lemma upload_excel_fails db rows status d db' :
  upload_excel db filename rows = (HTTPException status d, db') →
  ∃ pre row post s stats,
    rows = pre ++ row :: post
    ∧ row_loop (open db) stats0 pre = Done s stats
    ∧ process_row s stats row = Raised IntegrityError s
    ∧ status = 500%Z ∧ d = Database_error IntegrityError ∧ db' = persisted s.
Proof.
  unfold Upload.upload_excel. fold (row_loop (open db) stats0 rows).
  destruct (row_loop (open db) stats0 rows) as [s stats|e s] eqn:E; [done|].
  simpl. intros [= <- <- <-].
  apply row_loop_Raised in E as (pre & row & post & s1 & stats1 & -> & Hpre & Hrow).
  pose proof (process_row_Raised _ _ _ _ _ Hrow) as (-> & -> & _).
  exists pre, row, post, s1, stats1. done.
Qed.

Lemma phones_distinct_ext db db' :
  applicants db' = applicants db → phones_distinct db → phones_distinct db'.
Proof. unfold phones_distinct. by intros ->. Qed.

Lemma process_row_phones_distinct s stats row :
  phones_distinct (persisted s) →
  phones_distinct (persisted (session_of (process_row s stats row))).
Proof.
  intros Hs. destruct (process_row_step s stats row) as [a Hf|phone labor_id a Hf Hfree|];
    simpl; [done| |done].
  eapply phones_distinct_ext; [apply applicants_insert_applications|].
  eapply phones_distinct_insert; [|exact Hs].
  rewrite (insert_applicant_ok _ (Applicant.full_name a) phone labor_id Hfree).
  reflexivity.
Qed.

(** ** A phone shared by rows of one batch *)

Lemma filter_phone_absent (phone : str) (l : list Applicant.t) :
  (∀ b, b ∈ l → Applicant.phone b ≠ phone) →
  filter (λ b, Applicant.phone b = phone) l = [].
Proof.
  induction l as [|c l IH]; intros H; [done|].
  rewrite filter_cons_False by (apply H; left).
  apply IH. intros b Hb. apply H. by right.
Qed.

(** A row that goes through appends one application, for the applicant
    the lookup returned or for the applicant it created. *)
Lemma process_row_Done_flushed s stats row s' stats' :
  let phone := clean_phone (phone_cell row) in
  let labor_id := clean_text (labor_id_cell row) in
  process_row s stats row = Done s' stats' →
  ∃ a app,
    applications (flushed s') = applications (flushed s) ++ [app]
    ∧ Application.applicant_id app = Applicant.id a
    ∧ ((find_applicant s phone labor_id = Some a ∧ persisted s' = persisted s)
       ∨ (find_applicant s phone labor_id = None
          ∧ applicants (persisted s') = applicants (persisted s) ++ [a]
          ∧ Applicant.phone a = phone
          ∧ ∀ b, b ∈ applicants (persisted s) → Applicant.phone b ≠ phone)).
Proof.
  intros phone labor_id Heq. pose proof (process_row_step s stats row) as Hstep.
  rewrite Heq in Hstep.
  inversion Hstep as [a Hf|phone' labor_id' a Hf Hfree|]; subst.
  - exists a. eexists. rewrite flushed_add. simpl. eauto.
  - exists a. eexists. rewrite flushed_add. simpl. split.
    + f_equal. unfold flushed at 1. simpl.
      destruct s as [[A X] pending]. simpl.
      apply applications_insert_applications.
    + split; [done|]. right. by rewrite applicants_insert_applications.
Qed.

Lemma row_loop_Done_flushed rows s stats s' stats' :
  row_loop s stats rows = Done s' stats' →
  ∃ added, applications (flushed s') = applications (flushed s) ++ added
           ∧ length added = length rows.
Proof.
  revert s stats. induction rows as [|row rows IH]; intros s stats; simpl.
  - intros [= <- <-]. exists []. by rewrite app_nil_r.
  - destruct (process_row s stats row) as [s1 stats1|] eqn:E; [|done].
    intros (added & -> & Hlen)%IH.
    apply process_row_Done_flushed in E as (a & app & -> & _).
    exists (app :: added). rewrite <- app_assoc. simpl. by rewrite Hlen.
Qed.

(** No applicant with the phone appears while no row brings it. *)
Lemma row_loop_phone_absent (phone : str) rows s stats s' stats' :
  (∀ b, b ∈ applicants (persisted s) → Applicant.phone b ≠ phone) →
  (∀ r, r ∈ rows → clean_phone (phone_cell r) ≠ phone) →
  row_loop s stats rows = Done s' stats' →
  ∀ b, b ∈ applicants (persisted s') → Applicant.phone b ≠ phone.
Proof.
  revert s stats. induction rows as [|row rows IH]; intros s stats Hs Hrows; simpl.
  - by intros [= <- <-].
  - destruct (process_row s stats row) as [s1 stats1|] eqn:E; [|done].
    apply IH; [|intros; apply Hrows; by right].
    apply process_row_Done in E as [[-> _]|(a & -> & Ha & _)]; [done|].
    intros b [Hb|Hb%list_elem_of_singleton]%elem_of_app; [by apply Hs|].
    subst b. rewrite Ha. apply Hrows. by left.
Qed.

(** Once one stored applicant carries the phone, it stays the only one. *)
Lemma process_row_sole_carrier (phone : str) a s stats row s' stats' :
  filter (λ b, Applicant.phone b = phone) (applicants (persisted s)) = [a] →
  process_row s stats row = Done s' stats' →
  filter (λ b, Applicant.phone b = phone) (applicants (persisted s')) = [a].
Proof.
  intros Hs [[-> _]|(c & -> & _ & Hfree & _)]%process_row_Done; [done|].
  rewrite filter_app, Hs.
  assert (a ∈ filter (λ b, Applicant.phone b = phone) (applicants (persisted s)))
    as [Ha Hin]%list_elem_of_filter by (rewrite Hs; left).
  rewrite filter_cons_False; [done|].
  intros Hc. apply (Hfree a Hin). congruence.
Qed.

Lemma row_loop_sole_carrier (phone : str) a rows s stats s' stats' :
  filter (λ b, Applicant.phone b = phone) (applicants (persisted s)) = [a] →
  row_loop s stats rows = Done s' stats' →
  filter (λ b, Applicant.phone b = phone) (applicants (persisted s')) = [a].
Proof.
  revert s stats. induction rows as [|row rows IH]; intros s stats Hs; simpl.
  - by intros [= <- <-].
  - destruct (process_row s stats row) as [s1 stats1|] eqn:E; [|done].
    apply IH. by eapply process_row_sole_carrier.
Qed.

Lemma row_loop_cons s stats row rows :
  row_loop s stats (row :: rows) =
  match process_row s stats row with
  | Done s' stats' => row_loop s' stats' rows
  | Raised e s' => Raised e s'
  end.
Proof. reflexivity. Qed.

Lemma process_row_to_sole_carrier_find a s row :
  clean_phone (phone_cell row) ≠ [] →
  filter (λ b, Applicant.phone b = clean_phone (phone_cell row))
         (applicants (persisted s)) = [a] →
  find_applicant s (clean_phone (phone_cell row))
                 (clean_text (labor_id_cell row)) = Some a.
Proof.
  intros Hp Hs.
  assert (a ∈ filter (λ b, Applicant.phone b = clean_phone (phone_cell row))
                     (applicants (persisted s)))
    as [Ha Hin]%list_elem_of_filter by (rewrite Hs; left).
  apply find_applicant_unique; [done..|].
  intros b Hb Hbp.
  assert (b ∈ filter (λ b, Applicant.phone b = clean_phone (phone_cell row))
                     (applicants (persisted s))) as Hbf
    by (by apply list_elem_of_filter).
  rewrite Hs in Hbf. by apply list_elem_of_singleton in Hbf.
Qed.

(** A row with the phone of the sole carrier resolves to it. *)
Lemma process_row_to_sole_carrier a s stats row :
  clean_phone (phone_cell row) ≠ [] →
  filter (λ b, Applicant.phone b = clean_phone (phone_cell row))
         (applicants (persisted s)) = [a] →
  process_row s stats row =
  Done (add s (application_of row a)) (found_stats stats).
Proof.
  intros Hp Hs. apply process_row_found.
  by apply process_row_to_sole_carrier_find.
Qed.

Lemma upload_excel_Success db rows stats :
  fst (upload_excel db filename rows) = Success stats filename →
  ∃ s, row_loop (open db) stats0 rows = Done s stats
       ∧ snd (upload_excel db filename rows) = flushed s.
Proof.
  rewrite upload_excel_tables. unfold Upload.upload_excel.
  fold (row_loop (open db) stats0 rows).
  destruct (row_loop (open db) stats0 rows) as [s st|]; simpl; [|done].
  intros [= ->]. eauto.
Qed.

Abbreviation resolves_in_order := (resolves_in_order lower today filename).

(** What a failed upload leaves behind. When a row of the batch raises,
    the request fails with status 500 and the rollback undoes only what
    was added since the last commit: the tables end in the state
    committed when the failing row was reached. The tables of before the
    batch are a prefix of them, the applicants created by earlier rows of
    the batch are all still there (the table has grown by the counter of
    new applicants), and the tables are those of before the batch exactly
    when no earlier row created an applicant. *)
Lemma failed_upload_keeps_commits db pre row post s stats e s' :
  row_loop (open db) stats0 pre = Done s stats →
  process_row s stats row = Raised e s' →
  upload_excel db filename (pre ++ row :: post) =
    (HTTPException 500 (Database_error e), persisted s)
  ∧ applicants db `prefix_of` applicants (persisted s)
  ∧ applications db `prefix_of` applications (persisted s)
  ∧ Z.of_nat (length (applicants (persisted s))) =
      (Z.of_nat (length (applicants db)) + new_applicants stats)%Z
  ∧ (persisted s = db ↔ new_applicants stats = 0%Z).
Proof.
  intros Hpre Hrow. split; [by eapply upload_excel_Raised|].
  apply row_loop_Done in Hpre as (Hlen & Hle & Hsame & Hpa & Hpx).
  simpl in *. repeat split; [done|done|lia| |].
  - intros Heq. rewrite Heq in Hlen. lia.
  - intros H0. apply Hsame. by rewrite H0.
Qed.

(** C2. The invariant of the applicants table, that no two applicants
    share a non-empty phone, holds of the tables an upload leaves behind
    whenever it holds of the tables it starts from, whether the request
    succeeds or fails. *)
Theorem upload_keeps_phones_distinct db rows :
  phones_distinct db →
  phones_distinct (snd (upload_excel db filename rows)).
Proof.
  intros Hdb. rewrite upload_excel_tables.
  pose proof (row_loop_session_invariant
                (λ s, phones_distinct (persisted s)) rows
                (λ s stats row _, process_row_phones_distinct s stats row)
                (open db) stats0 Hdb) as H.
  destruct (row_loop (open db) stats0 rows) as [s stats|e s]; simpl in H; [|done].
  eapply phones_distinct_ext; [apply applicants_flushed|done].
Qed.

(** The course of the lookup. A stored applicant with the row's
    non-empty phone is taken and none is created; failing that, a stored
    applicant with the row's non-empty labor id is taken; failing that,
    an applicant with the cleaned phone, labor id and name is inserted
    when no stored applicant has that phone, and otherwise (the phone is
    then empty, and an applicant with an empty phone is stored) the
    insert is refused and the row raises. *)
Lemma resolution_order s stats row :
  let phone := clean_phone (phone_cell row) in
  let labor_id := clean_text (labor_id_cell row) in
  let full_name := clean_text (name_cell row) in
  let a' := Applicant.Build
              (next_id (Applicant.id <$> applicants (persisted s)))
              full_name phone labor_id in
  (∀ a, phone ≠ [] → first_by_phone (persisted s) phone = Some a →
     process_row s stats row =
     Done (add s (application_of row a)) (found_stats stats))
  ∧ (∀ a, phone = [] ∨ first_by_phone (persisted s) phone = None →
     labor_id ≠ [] → first_by_labor_id (persisted s) labor_id = Some a →
     process_row s stats row =
     Done (add s (application_of row a)) (found_stats stats))
  ∧ (phone = [] ∨ first_by_phone (persisted s) phone = None →
     labor_id = [] ∨ first_by_labor_id (persisted s) labor_id = None →
     (∀ b, b ∈ applicants (persisted s) → Applicant.phone b ≠ phone) →
     process_row s stats row =
     Done (add (Sess (insert_applications
                        (Tables (applicants (persisted s) ++ [a'])
                                (applications (persisted s))) (new s)) [])
               (application_of row a'))
          (created_stats stats))
  ∧ (phone = [] ∨ first_by_phone (persisted s) phone = None →
     labor_id = [] ∨ first_by_labor_id (persisted s) labor_id = None →
     (∃ b, b ∈ applicants (persisted s) ∧ Applicant.phone b = phone) →
     phone = [] ∧ process_row s stats row = Raised IntegrityError s).
Proof.
  intros phone labor_id full_name a'.
  assert (Hnone : phone = [] ∨ first_by_phone (persisted s) phone = None →
                  labor_id = [] ∨ first_by_labor_id (persisted s) labor_id = None →
                  find_applicant s phone labor_id = None).
  { intros Hp Hl. rewrite find_applicant_by_labor_id by done.
    destruct Hl as [->| ->]; [done|]. by destruct (truthy labor_id). }
  split_and!.
  - intros a Hp Hf. apply process_row_found. by apply find_applicant_by_phone.
  - intros a Hp Hl%truthy_spec Hf. apply process_row_found.
    rewrite find_applicant_by_labor_id by done. fold labor_id. by rewrite Hl.
  - intros Hp Hl Hfree. by apply process_row_created; [apply Hnone|].
  - intros Hp Hl (b & Hin & Hb). split.
    + destruct (decide (phone = [])) as [|Hne]; [done|].
      by destruct (find_applicant_None_phone s phone labor_id (Hnone Hp Hl) Hne b Hin).
    + by eapply process_row_refused; [apply Hnone|..].
Qed.

(** C10. The uniqueness constraint on the phone column covers the empty
    text. A row whose cleaned phone is empty and whose labor id is empty
    or matches no applicant, met while an applicant with an empty phone
    is stored, has its insert refused: the row raises, the request fails
    with status 500, and the tables stay as the last commit left them,
    without the applicant. *)
Theorem second_empty_phone_fails db pre row post s stats b :
  row_loop (open db) stats0 pre = Done s stats →
  clean_phone (phone_cell row) = [] →
  clean_text (labor_id_cell row) = []
  ∨ first_by_labor_id (persisted s) (clean_text (labor_id_cell row)) = None →
  b ∈ applicants (persisted s) → Applicant.phone b = [] →
  process_row s stats row = Raised IntegrityError s
  ∧ upload_excel db filename (pre ++ row :: post) =
      (HTTPException 500 (Database_error IntegrityError), persisted s).
Proof.
  intros Hpre Hp Hl Hin Hb.
  assert (process_row s stats row = Raised IntegrityError s) as Hrow.
  { apply (process_row_refused _ _ _ b); [|done|congruence].
    rewrite find_applicant_by_labor_id by (by left).
    destruct Hl as [->| ->]; [done|]. by destruct (truthy _). }
  split; [done|]. by eapply upload_excel_Raised.
Qed.

(** C4, as amended. Take a batch that is processed to the end, with two
    rows whose cleaned phones are equal, non-empty and carried by no
    applicant stored before the batch. When the first of the two is the
    first row of the batch with that phone, and its lookup by labor id
    finds nobody (the labor id is empty, or no applicant stored when the
    row is reached has it), then exactly one applicant carries the phone
    afterwards, it was created by the batch, and the applications of both
    rows point to it. *)
Theorem repeated_phone_one_applicant db pre r1 mid r2 post s stats stats' :
  let phone := clean_phone (phone_cell r1) in
  clean_phone (phone_cell r2) = phone → phone ≠ [] →
  (∀ b, b ∈ applicants db → Applicant.phone b ≠ phone) →
  (∀ r, r ∈ pre → clean_phone (phone_cell r) ≠ phone) →
  row_loop (open db) stats0 pre = Done s stats →
  clean_text (labor_id_cell r1) = []
  ∨ first_by_labor_id (persisted s) (clean_text (labor_id_cell r1)) = None →
  fst (upload_excel db filename (pre ++ r1 :: mid ++ r2 :: post)) =
    Success stats' filename →
  one_applicant_for_phone lower today db filename pre r1 mid r2 post.
Proof.
  intros phone Hr2 Hne Hdb Hpre_rows Hpre Hlabor Hok.
  apply upload_excel_Success in Hok as (sF & Hloop & Htables).
  (* the state in which the first of the two rows is met *)
  pose proof (row_loop_phone_absent phone pre (open db) _ _ _ Hdb Hpre_rows Hpre)
    as Hfree.
  destruct (row_loop_Done_flushed _ _ _ _ _ Hpre) as (Lpre & Happs0 & Hlen0).
  rewrite flushed_open in Happs0.
  rewrite row_loop_app, Hpre, row_loop_cons in Hloop.
  (* the first row creates the applicant *)
  assert (find_applicant s phone (clean_text (labor_id_cell r1)) = None) as Hnone.
  { rewrite find_applicant_by_labor_id
      by (right; by apply first_by_phone_None).
    destruct Hlabor as [->| ->]; [done|]. by destruct (truthy _). }
  set (a := Applicant.Build (next_id (Applicant.id <$> applicants (persisted s)))
              (clean_text (name_cell r1)) phone
              (clean_text (labor_id_cell r1))).
  set (s1 := add (Sess (insert_applications
                          (Tables (applicants (persisted s) ++ [a])
                                  (applications (persisted s))) (new s)) [])
                 (application_of r1 a)).
  assert (process_row s stats r1 = Done s1 (created_stats stats)) as Hrow1
    by exact (process_row_created s stats r1 Hnone Hfree).
  rewrite Hrow1 in Hloop.
  destruct (process_row_Done_flushed _ _ _ _ _ Hrow1)
    as (a1 & app1 & Happs1 & Hid1 & [[Hf1 _]|(_ & Ha1 & _)]);
    [fold phone in Hf1; congruence|].
  assert (a1 = a) as ->.
  { unfold s1 in Ha1. simpl in Ha1. rewrite applicants_insert_applications in Ha1.
    simpl in Ha1. by apply app_inj_1 in Ha1 as [_ [= <-]]. }
  assert (filter (λ b, Applicant.phone b = phone) (applicants (persisted s1)) = [a])
    as Hsole1.
  { unfold s1. simpl. rewrite applicants_insert_applications. simpl.
    rewrite filter_app, (filter_phone_absent phone _ Hfree).
    by rewrite filter_cons_True. }
  (* the rows between the two *)
  rewrite row_loop_app in Hloop.
  destruct (row_loop s1 (created_stats stats) mid) as [s2 stats2|] eqn:Hmid; [|done].
  pose proof (row_loop_sole_carrier phone a _ _ _ _ _ Hsole1 Hmid) as Hsole2.
  destruct (row_loop_Done_flushed _ _ _ _ _ Hmid) as (Lmid & Happs2 & Hlen2).
  (* the second row finds it *)
  rewrite row_loop_cons in Hloop.
  assert (process_row s2 stats2 r2 =
          Done (add s2 (application_of r2 a)) (found_stats stats2)) as Hrow2.
  { apply process_row_to_sole_carrier; by rewrite Hr2. }
  rewrite Hrow2 in Hloop.
  destruct (process_row_Done_flushed _ _ _ _ _ Hrow2)
    as (a2 & app2 & Happs3 & Hid2 & [[Hf2 _]|(Hf2 & _)]).
  2: { rewrite Hr2 in Hf2.
       pose proof (find_applicant_None_phone _ _ _ Hf2 Hne) as Habs.
       assert (a ∈ filter (λ b, Applicant.phone b = phone) (applicants (persisted s2)))
         as [Ha Hin]%list_elem_of_filter by (rewrite Hsole2; left).
       by destruct (Habs a Hin). }
  assert (a2 = a) as ->.
  { rewrite (process_row_to_sole_carrier_find a s2 r2) in Hf2;
      [congruence|by rewrite Hr2..]. }
  assert (filter (λ b, Applicant.phone b = phone)
                 (applicants (persisted (add s2 (application_of r2 a)))) = [a])
    as Hsole3 by done.
  (* the rest of the batch *)
  pose proof (row_loop_sole_carrier phone a _ _ _ _ _ Hsole3 Hloop) as HsoleF.
  destruct (row_loop_Done_flushed _ _ _ _ _ Hloop) as (Lpost & HappsF & _).
  rewrite Happs3, Happs2, Happs1, Happs0 in HappsF.
  unfold one_applicant_for_phone. fold phone. simpl. rewrite Htables.
  exists a, app1, app2.
  rewrite applicants_flushed. split; [exact HsoleF|].
  split; [intros Hin; by apply (Hdb a Hin)|].
  unfold application_at. rewrite HappsF.
  split; [|split; [|by split]].
  - rewrite <- !app_assoc. rewrite (app_assoc (applications db) Lpre).
    simpl. apply list_lookup_middle. rewrite length_app. lia.
  - rewrite <- (app_assoc _ _ Lpost). simpl.
    apply list_lookup_middle. rewrite !length_app. simpl. lia.
Qed.

End WithRuntime.
End UploadFacts.

(* ===================================================================== *)
(** * Worked cases of the upload *)
(* ===================================================================== *)

Module UploadCases.
Import Text Cleaner Dates Store Upload Samples UploadFacts.

(** C1, at the failing input. Three rows on an empty store: the first
    brings a phone, the other two have neither phone nor labor id. The
    third row is refused and the request fails with status 500, yet two
    applicants and one application of the failed batch stay in the
    tables: the commit made at each creation has put them out of reach
    of the rollback, and the batch is not undone as a whole. *)
Theorem failed_upload_not_atomic :
  let rows := [row "0911223344" "" "Abebe"; blank "Kebede"; blank "Chala"] in
  let result := upload_excel lower_ascii day0 empty_db file0 rows in
  fst result = HTTPException 500 (Database_error IntegrityError)
  ∧ length (applicants (snd result)) = 2%nat
  ∧ length (applications (snd result)) = 1%nat
  ∧ ¬ atomic_on_failure lower_ascii day0 empty_db file0 rows.
Proof.
  intros rows result. split_and!; [by vm_compute..|].
  intros H. specialize (H _ _ _ eq_refl). vm_compute in H. discriminate H.
Qed.

(** The same batch, seen row by row. *)
Lemma failed_upload_keeps_commits_witness :
  let pre := [row "0911223344" "" "Abebe"; blank "Kebede"] in
  let s := fst (after empty_db pre) in
  let stats := snd (after empty_db pre) in
  upload_excel lower_ascii day0 empty_db file0 (pre ++ blank "Chala" :: []) =
    (HTTPException 500 (Database_error IntegrityError), persisted s)
  ∧ applicants empty_db `prefix_of` applicants (persisted s)
  ∧ applications empty_db `prefix_of` applications (persisted s)
  ∧ Z.of_nat (length (applicants (persisted s))) =
      (Z.of_nat (length (applicants empty_db)) + new_applicants stats)%Z
  ∧ (persisted s = empty_db ↔ new_applicants stats = 0%Z).
Proof.
  intros pre s stats.
  apply (failed_upload_keeps_commits lower_ascii day0 file0 empty_db pre
           (blank "Chala") [] s stats IntegrityError s);
    vm_compute; reflexivity.
Defined.

(** C2, witness: a store with one phone on file takes a batch that
    repeats it. *)
Lemma upload_keeps_phones_distinct_witness :
  phones_distinct db_known
  ∧ phones_distinct
      (snd (upload_excel lower_ascii day0 db_known file0
              [row "0911000000" "" "Abebe"; row "0911223344" "" "Kebede"])).
Proof.
  assert (phones_distinct db_known) as H.
  { unfold phones_distinct. vm_compute. apply NoDup_singleton. }
  split; [exact H|].
  apply (upload_keeps_phones_distinct lower_ascii day0 file0 db_known _ H).
Defined.

(** C3, at the failing input. An applicant without a phone is on file;
    a row with no phone and no labor id matches nobody, so the lookup
    order asks for a new applicant. None is created: the empty phone is
    stored as a text under the uniqueness constraint, the insert is
    refused, the row raises and the request answers 500 with the tables
    unchanged. *)
Theorem resolution_without_creation :
  let s := open db_no_phone in
  let r := blank "Kebede" in
  find_applicant s (clean_phone (phone_cell r)) (clean_text (labor_id_cell r))
    = None
  ∧ process_row lower_ascii day0 file0 s stats0 r = Raised IntegrityError s
  ∧ upload_excel lower_ascii day0 db_no_phone file0 [r] =
      (HTTPException 500 (Database_error IntegrityError), db_no_phone)
  ∧ ¬ resolves_in_order lower_ascii day0 file0 s stats0 r.
Proof.
  intros s r. split_and!; [by vm_compute..|].
  intros (_ & _ & H).
  destruct H as (s' & a & Hrow & _); [by left..|].
  vm_compute in Hrow. discriminate Hrow.
Qed.

(** C4, counterexample. The first row brings a new phone and the labor
    id of an applicant on file, so it is attached to that applicant; the
    second row brings the same phone and no labor id, so an applicant is
    created for it. The two applications point to different applicants. *)
Lemma repeated_phone_two_applicants :
  ¬ repeated_phone_as_stated lower_ascii day0 db_known file0
      [] (row "0911223344" "L1" "Kebede") [] (row "0911223344" "" "Kebede") [].
Proof.
  intros H.
  destruct H as (a & app1 & app2 & _ & _ & H1 & H2 & E1 & E2).
  - reflexivity.
  - by vm_compute.
  - intros b ->%list_elem_of_singleton. by vm_compute.
  - vm_compute in H1, H2. injection H1 as <-. injection H2 as <-.
    simpl in E1, E2. congruence.
Qed.

(** C4, witness: two spellings of one number on an empty store. *)
Lemma repeated_phone_one_applicant_witness :
  one_applicant_for_phone lower_ascii day0 empty_db file0
    [] (row "0911223344" "" "Abebe") [] (row "251911223344" "" "Abebe") [].
Proof.
  apply (repeated_phone_one_applicant lower_ascii day0 file0 empty_db
           [] (row "0911223344" "" "Abebe") [] (row "251911223344" "" "Abebe") []
           (open empty_db) stats0 (MkStats 1 1 2)).
  - by vm_compute.
  - by vm_compute.
  - intros b Hb. by apply elem_of_nil in Hb.
  - intros r Hr. by apply elem_of_nil in Hr.
  - reflexivity.
  - left. by vm_compute.
  - by vm_compute.
Defined.

(** C10, witness: a second applicant without a phone is refused. *)
Lemma second_empty_phone_fails_witness :
  process_row lower_ascii day0 file0 (open db_no_phone) stats0 (blank "Kebede") =
    Raised IntegrityError (open db_no_phone)
  ∧ upload_excel lower_ascii day0 db_no_phone file0 ([] ++ blank "Kebede" :: []) =
      (HTTPException 500 (Database_error IntegrityError),
       persisted (open db_no_phone)).
Proof.
  apply (second_empty_phone_fails lower_ascii day0 file0 db_no_phone []
           (blank "Kebede") [] (open db_no_phone) stats0 no_phone).
  - reflexivity.
  - reflexivity.
  - by left.
  - by apply list_elem_of_singleton.
  - reflexivity.
Defined.

(** The example of the specification: one number on two rows gives one
    applicant and two applications. *)
Example upload_same_phone_twice :
  let result :=
    upload_excel lower_ascii day0 empty_db file0
      [row "0911223344" "" "Abebe"; row "0911223344" "" "Abebe"] in
  fst result = Success (MkStats 1 1 2) file0
  ∧ length (applicants (snd result)) = 1%nat
  ∧ length (applications (snd result)) = 2%nat.
Proof. vm_compute. done. Qed.

End UploadCases.

(* ===================================================================== *)
(** * Search *)
(* ===================================================================== *)

Module SearchFacts.
Import Text Dates Store Search DatesFacts.

#[export] Instance date_desc_trans : Transitive date_desc.
Proof. intros x y z Hxy Hyz. unfold date_desc in *. by etransitivity. Qed.

#[export] Instance date_desc_total : Total date_desc.
Proof. intros x y. unfold date_desc. apply date_le_total. Qed.

(** ** The unique-only loop *)

Lemma foldl_unique_step seen acc results :
  snd (foldl unique_step (seen, acc) results) = acc ++ collapse seen results.
Proof.
  revert seen acc. induction results as [|r rest IH]; intros seen acc; simpl.
  - by rewrite app_nil_r.
  - unfold unique_step at 2. simpl.
    destruct (decide (applicant_key (snd r) ∈ seen)); [apply IH|].
    rewrite IH, <- app_assoc. done.
Qed.

Lemma unique_results_collapse results : unique_results results = collapse ∅ results.
Proof. unfold unique_results. by rewrite foldl_unique_step. Qed.

(** What is kept is the first row of its key, and its key was not seen. *)
Lemma collapse_first seen results r :
  r ∈ collapse seen results →
  (applicant_key (snd r) ∉ seen)
  ∧ ∃ before rest, results = before ++ r :: rest
      ∧ ∀ x, x ∈ before → applicant_key (snd x) ≠ applicant_key (snd r).
Proof.
  revert seen. induction results as [|x results IH]; intros seen; simpl.
  - by intros ?%elem_of_nil.
  - destruct (decide (applicant_key (snd x) ∈ seen)) as [Hx|Hx].
    + intros H. apply IH in H as (Hr & before & rest & -> & Hb).
      split; [done|].
      exists (x :: before), rest. split; [done|].
      intros y [->|Hy]%elem_of_cons; [congruence|by apply Hb].
    + intros [->|H]%elem_of_cons.
      * split; [done|]. exists [], results. split; [done|].
        by intros ? ?%elem_of_nil.
      * apply IH in H as (Hr & before & rest & -> & Hb).
        apply not_elem_of_union in Hr as [Hrx%not_elem_of_singleton Hr].
        split; [done|].
        exists (x :: before), rest. split; [done|].
        intros y [->|Hy]%elem_of_cons; [congruence|by apply Hb].
Qed.

Lemma collapse_NoDup seen results :
  NoDup ((applicant_key ∘ snd) <$> collapse seen results).
Proof.
  revert seen. induction results as [|x results IH]; intros seen; simpl.
  - apply NoDup_nil_2.
  - destruct (decide (applicant_key (snd x) ∈ seen)); [apply IH|].
    simpl. apply NoDup_cons. split; [|apply IH].
    intros (r & Hk & Hr)%list_elem_of_fmap. simpl in Hk.
    apply collapse_first in Hr as [Hr _]. set_solver.
Qed.

(** In a list ordered by date, latest first, the first row of a key is
    at least as recent as every row of that key. *)
Lemma first_of_key_most_recent results before r rest r' :
  StronglySorted date_desc results →
  results = before ++ r :: rest →
  (∀ x, x ∈ before → applicant_key (snd x) ≠ applicant_key (snd r)) →
  r' ∈ results → applicant_key (snd r') = applicant_key (snd r) →
  date_le (Application.application_date (fst r'))
          (Application.application_date (fst r)).
Proof.
  intros Hs -> Hb Hr' Hk.
  apply elem_of_app in Hr' as [Hr'|Hr']; [by destruct (Hb _ Hr')|].
  apply StronglySorted_app_1_r in Hs.
  apply elem_of_cons in Hr' as [->|Hr']; [reflexivity|].
  inversion Hs as [|? ? _ Hall]; subst.
  rewrite Forall_forall in Hall. by apply Hall.
Qed.

(** ** The query *)

Section WithRuntime.
Variable lower : str → str.

Abbreviation query := (query lower).
Abbreviation search_results := (search_results lower).
Abbreviation search_applicants := (search_applicants lower).

Lemma query_inr db position start_date end_date start end_ :
  parse_bound start_date = inr start → parse_bound end_date = inr end_ →
  query db position start_date end_date =
  inr (merge_sort date_desc
         (filter (selected (strip (lower position)) start end_) (join db))).
Proof. intros Hs He. unfold Search.query. by rewrite Hs, He. Qed.

Lemma query_inr_inv db position start_date end_date results :
  query db position start_date end_date = inr results →
  ∃ start end_,
    parse_bound start_date = inr start ∧ parse_bound end_date = inr end_
    ∧ results = merge_sort date_desc
        (filter (selected (strip (lower position)) start end_) (join db)).
Proof.
  unfold Search.query.
  destruct (parse_bound start_date) as [|start]; [done|].
  destruct (parse_bound end_date) as [|end_]; [done|].
  intros [= <-]. eauto.
Qed.

Lemma query_sorted db position start_date end_date results :
  query db position start_date end_date = inr results →
  StronglySorted date_desc results.
Proof.
  intros (start & end_ & _ & _ & ->)%query_inr_inv.
  apply StronglySorted_merge_sort; apply _.
Qed.

Lemma elem_of_query db position start_date end_date start end_ results r :
  parse_bound start_date = inr start → parse_bound end_date = inr end_ →
  query db position start_date end_date = inr results →
  r ∈ results ↔
  r ∈ join db ∧ selected (strip (lower position)) start end_ r.
Proof.
  intros Hs He. rewrite (query_inr _ _ _ _ _ _ Hs He). intros [= <-].
  rewrite merge_sort_Permutation, list_elem_of_filter. tauto.
Qed.

(** A text that is not a date makes [parse_bound] raise. *)
Lemma parse_bound_malformed text :
  text ≠ [] → strptime text = None → parse_bound (Some text) = inl ValueError.
Proof. intros Ht Hp. simpl. rewrite Hp. by destruct text. Qed.

Lemma search_applicants_malformed_start db position text end_date unique_only
    output_format :
  text ≠ [] → strptime text = None →
  search_applicants db position (Some text) end_date unique_only output_format
  = inl ValueError.
Proof.
  intros Ht Hp. unfold Search.search_applicants, Search.search_results, Search.query.
  by rewrite (parse_bound_malformed text Ht Hp).
Qed.

Lemma search_applicants_malformed_end db position start_date start text
    unique_only output_format :
  parse_bound start_date = inr start →
  text ≠ [] → strptime text = None →
  search_applicants db position start_date (Some text) unique_only output_format
  = inl ValueError.
Proof.
  intros Hs Ht Hp. unfold Search.search_applicants, Search.search_results, Search.query.
  by rewrite Hs, (parse_bound_malformed text Ht Hp).
Qed.

(** C7. With [unique_only] set, no two returned rows have the same
    dedup key (phone, else labor id, else name), every returned row is
    one of the matching rows, and it is at least as recent as every
    matching row of the same applicant. *)
Theorem unique_only_keeps_most_recent db position start_date end_date unique :
  search_results db position start_date end_date true = inr unique →
  ∃ matching,
    search_results db position start_date end_date false = inr matching
    ∧ NoDup ((applicant_key ∘ snd) <$> unique)
    ∧ ∀ r, r ∈ unique →
        r ∈ matching
        ∧ ∀ r', r' ∈ matching → snd r' = snd r →
            date_le (Application.application_date (fst r'))
                    (Application.application_date (fst r)).
Proof.
  unfold Search.search_results.
  destruct (query db position start_date end_date) as [|matching] eqn:Hq; [done|].
  intros [= <-]. exists matching. split; [done|].
  rewrite unique_results_collapse. split; [apply collapse_NoDup|].
  intros r (_ & before & rest & Hsplit & Hb)%collapse_first.
  split; [rewrite Hsplit; set_solver|].
  intros r' Hr' Hsame.
  eapply first_of_key_most_recent;
    [by eapply query_sorted|done..|by rewrite Hsame].
Qed.

(** C8, at a malformed date. The text [10/01/2024] is not an ISO date:
    [strptime] raises, nothing in the handler catches it, and the
    request ends with status 500, not with a client error; so it is for
    the start date and for the end date. *)
Theorem malformed_date_status db position other unique_only output_format :
  let as_start :=
    search_applicants db position (Some (lit "10/01/2024")) other
                      unique_only output_format in
  let as_end :=
    search_applicants db position None (Some (lit "10/01/2024"))
                      unique_only output_format in
  (as_start = inl ValueError ∧ status as_start = 500%Z
   ∧ ¬ client_error (status as_start))
  ∧ (as_end = inl ValueError ∧ status as_end = 500%Z
     ∧ ¬ client_error (status as_end)).
Proof.
  intros as_start as_end.
  assert (as_start = inl ValueError) as ->
    by (by apply search_applicants_malformed_start).
  assert (as_end = inl ValueError) as ->
    by (by apply (search_applicants_malformed_end _ _ None None)).
  unfold client_error. simpl. split_and!; (done || lia).
Qed.

(** C9. The date filter is inclusive at both ends. For bounds that
    parse, the rows returned are the joined rows whose position matches
    and whose date is on or after the start and on or before the end; in
    particular a matching row dated exactly on the start date, or exactly
    on the end date, is returned (when it also meets the other bound). *)
Theorem date_range_inclusive db position start_date end_date start end_ :
  parse_bound start_date = inr start → parse_bound end_date = inr end_ →
  ∃ results,
    search_results db position start_date end_date false = inr results
    ∧ (∀ r, r ∈ results ↔
         r ∈ join db
         ∧ contains (Application.position (fst r)) (strip (lower position))
         ∧ on_or_after start (Application.application_date (fst r))
         ∧ on_or_before end_ (Application.application_date (fst r)))
    ∧ (∀ r, r ∈ join db →
         contains (Application.position (fst r)) (strip (lower position)) →
         start = Some (Application.application_date (fst r)) →
         on_or_before end_ (Application.application_date (fst r)) →
         r ∈ results)
    ∧ (∀ r, r ∈ join db →
         contains (Application.position (fst r)) (strip (lower position)) →
         end_ = Some (Application.application_date (fst r)) →
         on_or_after start (Application.application_date (fst r)) →
         r ∈ results).
Proof.
  intros Hs He. eexists. unfold Search.search_results.
  rewrite (query_inr _ _ _ _ _ _ Hs He). split; [done|].
  assert (∀ r, r ∈ merge_sort date_desc
                     (filter (selected (strip (lower position)) start end_) (join db))
               ↔ r ∈ join db
                 ∧ contains (Application.position (fst r)) (strip (lower position))
                 ∧ on_or_after start (Application.application_date (fst r))
                 ∧ on_or_before end_ (Application.application_date (fst r))) as Hin.
  { intros r. rewrite merge_sort_Permutation, list_elem_of_filter.
    unfold selected. tauto. }
  split; [exact Hin|]. split.
  - intros r Hj Hc -> Hb. apply Hin. split_and!; [done..| |done].
    simpl. reflexivity.
  - intros r Hj Hc -> Ha. apply Hin. split_and!; [done..|].
    simpl. reflexivity.
Qed.

End WithRuntime.
End SearchFacts.

(* ===================================================================== *)
(** * Worked cases of the search *)
(* ===================================================================== *)

Module SearchCases.
Import Text Dates Store Search Samples SearchFacts.

(** C7, witness: of two applications of one applicant, the later one is
    returned. *)
Lemma unique_only_keeps_most_recent_witness :
  ∃ matching,
    search_results lower_ascii db_two (lit "Driver") None None false = inr matching
    ∧ NoDup ((applicant_key ∘ snd) <$> [(february, abebe)])
    ∧ ∀ r, r ∈ [(february, abebe)] →
        r ∈ matching
        ∧ ∀ r', r' ∈ matching → snd r' = snd r →
            date_le (Application.application_date (fst r'))
                    (Application.application_date (fst r)).
Proof.
  apply (unique_only_keeps_most_recent lower_ascii db_two (lit "Driver")
           None None [(february, abebe)]).
  vm_compute. reflexivity.
Defined.

(** C9, witness: bounds set on the dates of the two applications return
    both. *)
Lemma date_range_inclusive_witness :
  ∃ results,
    search_results lower_ascii db_two (lit "driver")
      (Some (lit "2024-01-10")) (Some (lit "2024-02-05")) false = inr results
    ∧ (∀ r, r ∈ results ↔
         r ∈ join db_two
         ∧ contains (Application.position (fst r)) (strip (lower_ascii (lit "driver")))
         ∧ on_or_after (Some (Date 2024 1 10)) (Application.application_date (fst r))
         ∧ on_or_before (Some (Date 2024 2 5)) (Application.application_date (fst r)))
    ∧ (∀ r, r ∈ join db_two →
         contains (Application.position (fst r)) (strip (lower_ascii (lit "driver"))) →
         Some (Date 2024 1 10) = Some (Application.application_date (fst r)) →
         on_or_before (Some (Date 2024 2 5)) (Application.application_date (fst r)) →
         r ∈ results)
    ∧ (∀ r, r ∈ join db_two →
         contains (Application.position (fst r)) (strip (lower_ascii (lit "driver"))) →
         Some (Date 2024 2 5) = Some (Application.application_date (fst r)) →
         on_or_after (Some (Date 2024 1 10)) (Application.application_date (fst r)) →
         r ∈ results).
Proof.
  apply (date_range_inclusive lower_ascii db_two (lit "driver")
           (Some (lit "2024-01-10")) (Some (lit "2024-02-05"))
           (Some (Date 2024 1 10)) (Some (Date 2024 2 5)));
    vm_compute; reflexivity.
Defined.

(** The example of the specification: both rows match, the later first;
    with [unique_only] only the later one is left. *)
Example search_driver :
  search_results lower_ascii db_two (lit "driver") None None false =
    inr [(february, abebe); (january, abebe)]
  ∧ search_results lower_ascii db_two (lit "driver") None None true =
    inr [(february, abebe)].
Proof. split; vm_compute; reflexivity. Qed.

(** Rows dated on the bounds themselves are returned. *)
Example search_on_the_bounds :
  search_results lower_ascii db_two (lit "driver")
    (Some (lit "2024-01-10")) (Some (lit "2024-02-05")) false =
  inr [(february, abebe); (january, abebe)].
Proof. vm_compute. reflexivity. Qed.

End SearchCases.

(* ===================================================================== *)
(** * More on the cleaners *)
(* ===================================================================== *)

Module CleanerMore.
Import Text Cleaner TextFacts CleanerFacts.

Lemma startswith_true p s :
  startswith p s = true → s = p ++ drop (length p) s.
Proof.
  revert s. induction p as [|a p IH]; intros [|b s]; cbn [startswith]; try done.
  intros [Hab%N.eqb_eq Hp]%andb_true_iff. subst. simpl. f_equal. by apply IH.
Qed.

Lemma clean_phone_cases s :
  let digits := only_digits (strip s) in
  (∃ d, length d = 9%nat ∧ Forall (λ c, isdigit c) d
        ∧ clean_phone (Text s) = lit "+251" ++ d
        ∧ (digits = lit "0" ++ d ∨ digits = lit "251" ++ d ∨ digits = d))
  ∨ clean_phone (Text s) = strip s.
Proof.
  intros digits. unfold clean_phone. fold digits.
  assert (Forall (λ c, isdigit c) digits) as Hdig by apply only_digits_Forall.
  case_branch "0" 10%nat.
  { left. exists (drop 1 digits). rewrite length_drop.
    split_and!; [lia|by apply Forall_drop|done|].
    left. by apply startswith_true in E. }
  all: case_branch "251" 12%nat.
  all: try (left; exists (drop 3 digits); rewrite length_drop;
            apply startswith_true in E0;
            change (length (lit "251")) with 3%nat in E0;
            split_and!; [lia|by apply Forall_drop|by rewrite E0 at 1|by right; left]).
  all: case_branch "9" 9%nat.
  all: try (left; exists digits; split_and!; [done..|by right; right]).
  all: by right.
Qed.

(** Separators do not count: whatever surrounds the digits, a number
    written with the leading zero, with the country code, or (when it
    opens with 9) bare, comes out as the same text, +251 and the nine
    digits. *)
Theorem clean_phone_spellings_agree s0 s251 s9 d :
  length d = 9%nat →
  only_digits (strip s0) = lit "0" ++ d →
  only_digits (strip s251) = lit "251" ++ d →
  only_digits (strip s9) = d → startswith (lit "9") d = true →
  clean_phone (Text s0) = lit "+251" ++ d
  ∧ clean_phone (Text s251) = lit "+251" ++ d
  ∧ clean_phone (Text s9) = lit "+251" ++ d.
Proof.
  intros Hl H0 H251 H9 Hs. unfold clean_phone.
  rewrite H0, H251, H9. rewrite !length_app, Hl, Hs.
  change (lit "0" ++ d) with (48%N :: d).
  change (lit "251" ++ d) with (50%N :: 53%N :: 49%N :: d).
  apply startswith_true in Hs as Hd.
  change (length (lit "9")) with 1%nat in Hd. rewrite Hd.
  change (lit "9" ++ drop 1 d) with (57%N :: drop 1 d).
  done.
Qed.

(** The phone key never carries surrounding whitespace. *)
Theorem clean_phone_is_trimmed phone : strip (clean_phone phone) = clean_phone phone.
Proof.
  destruct phone as [|s]; [done|].
  destruct (clean_phone_cases s) as [(d & Hl & Hd & -> & _)| ->].
  - change (lit "+251" ++ d) with (lit "+" ++ (lit "251" ++ d)).
    apply strip_plus_digits; [done|].
    apply Forall_app. split; [apply lit_251_digits|done].
  - apply strip_idemp.
Qed.

(** A phone counts as missing exactly when the cell is empty or holds
    nothing but whitespace. *)
Theorem clean_phone_empty_iff phone :
  clean_phone phone = [] ↔ phone = NaN ∨ ∃ s, phone = Text s ∧ strip s = [].
Proof.
  destruct phone as [|s]; [naive_solver|].
  destruct (clean_phone_cases s) as [(d & _ & _ & Heq & _)|Heq]; rewrite Heq.
  - split; [done|]. intros [|(s' & [= <-] & Hs)]; [done|].
    exfalso. unfold clean_phone in Heq. rewrite Hs in Heq. done.
  - split; [intros Hs; right; by exists s|].
    by intros [|(s' & [= <-] & Hs)].
Qed.

(** [clean_text] trims, and trimming twice changes nothing. *)
Theorem clean_text_idempotent text :
  clean_text (Text (clean_text text)) = clean_text text
  ∧ strip (clean_text text) = clean_text text.
Proof.
  destruct text as [|s]; [done|]. simpl. by rewrite strip_idemp.
Qed.

End CleanerMore.

(* ===================================================================== *)
(** * More on the upload *)
(* ===================================================================== *)

Module UploadMore.
Import Text Cleaner Dates Store Upload Integrity StoreFacts UploadFacts.

Lemma next_id_above ids i : i ∈ ids → (i < next_id ids)%Z.
Proof.
  unfold next_id. induction ids as [|j ids IH]; [by intros ?%elem_of_nil|].
  simpl. intros [->|Hi%IH]%elem_of_cons; lia.
Qed.

Lemma next_id_fresh ids : next_id ids ∉ ids.
Proof. intros H%next_id_above. lia. Qed.

Lemma applications_snoc db p :
  applications (insert_application db p) =
  applications db ++
  [Application.Build (next_id (Application.id <$> applications db))
     (Application.new_applicant_id p) (Application.new_position p)
     (Application.new_application_date p) (Application.new_source_file p)].
Proof. reflexivity. Qed.

Lemma insert_application_keys db p :
  NoDup (Application.id <$> applications db) →
  NoDup (Application.id <$> applications (insert_application db p)).
Proof.
  intros H. rewrite applications_snoc, fmap_app. simpl.
  apply NoDup_app. split_and!; [done| |apply NoDup_singleton].
  intros i Hi ->%list_elem_of_singleton. by apply next_id_fresh in Hi.
Qed.

Lemma insert_applications_keys ps db :
  NoDup (Application.id <$> applications db) →
  NoDup (Application.id <$> applications (insert_applications db ps)).
Proof.
  unfold insert_applications. revert db.
  induction ps as [|p ps IH]; intros db H; simpl; [done|].
  by apply IH, insert_application_keys.
Qed.

Lemma insert_application_references db p :
  references_resolve db →
  (∃ a, a ∈ applicants db ∧ Applicant.id a = Application.new_applicant_id p) →
  references_resolve (insert_application db p).
Proof.
  intros Hdb Hp app. rewrite applications_snoc.
  intros [Happ| ->%list_elem_of_singleton]%elem_of_app; [by apply Hdb|].
  exact Hp.
Qed.

(** Adding an applicant keeps the references of the applications. *)
Lemma references_resolve_grow db A :
  references_resolve db → applicants db ⊆ A →
  references_resolve (Tables A (applications db)).
Proof.
  intros Hdb Hsub app Happ. destruct (Hdb app Happ) as (a & Ha & Hid).
  exists a. split; [by apply Hsub|done].
Qed.

(** The tables a flush would leave, with one more applicant. *)
Lemma flushed_with_applicant A X pending a :
  insert_applications (Tables (A ++ [a]) X) pending =
  Tables (A ++ [a]) (applications (insert_applications (Tables A X) pending)).
Proof.
  pose proof (applicants_insert_applications pending (Tables (A ++ [a]) X)) as H1.
  pose proof (applications_insert_applications pending (A ++ [a]) A X) as H2.
  destruct (insert_applications (Tables (A ++ [a]) X) pending) as [A' X'].
  simpl in *. by subst.
Qed.

Lemma flushed_created s a p :
  flushed (add (Sess (insert_applications
                        (Tables (applicants (persisted s) ++ [a])
                                (applications (persisted s))) (new s)) []) p) =
  insert_application
    (Tables (applicants (persisted s) ++ [a]) (applications (flushed s))) p.
Proof.
  rewrite flushed_add. f_equal. unfold flushed at 1. simpl.
  rewrite flushed_with_applicant. unfold flushed. by destruct (persisted s).
Qed.

Lemma references_resolve_persisted s :
  references_resolve (flushed s) → references_resolve (persisted s).
Proof.
  intros H app Happ.
  destruct (applications_insert_applications_prefix (new s) (persisted s))
    as (added & Hadd & _).
  destruct (H app) as (a & Ha & Hid).
  { unfold flushed. rewrite Hadd. set_solver. }
  exists a. by rewrite applicants_flushed in Ha.
Qed.

Lemma keys_distinct_persisted s :
  keys_distinct (flushed s) → keys_distinct (persisted s).
Proof.
  intros [Ha Hx]. split; [by rewrite applicants_flushed in Ha|].
  destruct (applications_insert_applications_prefix (new s) (persisted s))
    as (added & Hadd & _).
  unfold flushed in Hx. rewrite Hadd, fmap_app in Hx.
  by apply NoDup_app in Hx as [? _].
Qed.

Section WithRuntime.
Variable lower : str → str.
Variable today : date.
Variable filename : str.

Abbreviation process_row := (process_row lower today filename).
Abbreviation row_loop := (row_loop lower today filename).
Abbreviation upload_excel := (upload_excel lower today).
Abbreviation application_of := (application_of lower today filename).
Abbreviation carries := (carries lower today filename).

(** ** Foreign keys and primary keys *)

Lemma process_row_references s stats row :
  references_resolve (flushed s) →
  references_resolve (flushed (session_of (process_row s stats row))).
Proof.
  intros Hs.
  destruct (process_row_step lower today filename s stats row)
    as [a Hf|phone labor_id a Hf Hfree|]; simpl; [| |done].
  - rewrite flushed_add. apply insert_application_references; [done|].
    exists a. rewrite applicants_flushed.
    split; [by eapply find_applicant_elem_of|done].
  - rewrite flushed_created. apply insert_application_references.
    + apply (references_resolve_grow (flushed s)); [done|].
      rewrite applicants_flushed. set_solver.
    + exists a. simpl. split; [set_solver|done].
Qed.

Lemma process_row_keys s stats row :
  keys_distinct (flushed s) →
  keys_distinct (flushed (session_of (process_row s stats row))).
Proof.
  intros [Ha Hx].
  destruct (process_row_step lower today filename s stats row)
    as [a Hf|phone labor_id a Hf Hfree|]; simpl; [| |done].
  - rewrite flushed_add. split; [done|]. by apply insert_application_keys.
  - rewrite flushed_created. split.
    + simpl. rewrite fmap_app. rewrite applicants_flushed in Ha.
      apply NoDup_app. split_and!; [done| |apply NoDup_singleton].
      intros i Hi ->%list_elem_of_singleton. by apply next_id_fresh in Hi.
    + by apply (insert_application_keys (Tables _ (applications (flushed s)))).
Qed.

(** The tables of an upload, whichever way it ends, are those of a
    session the loop reached: flushed on success, as committed on
    failure. *)
Lemma upload_excel_outcome db rows :
  ∃ s, session_of (row_loop (open db) stats0 rows) = s
       ∧ (snd (upload_excel db filename rows) = flushed s
          ∨ snd (upload_excel db filename rows) = persisted s).
Proof.
  rewrite upload_excel_tables. eexists. split; [done|].
  destruct (Upload.row_loop _ _ _ _ _ _); simpl; eauto.
Qed.

(** An upload keeps the foreign key: when every application points to a
    stored applicant before, so it is after, whether the request succeeds
    or fails. *)
Theorem upload_keeps_references db rows :
  references_resolve db →
  references_resolve (snd (upload_excel db filename rows)).
Proof.
  intros Hdb.
  pose proof (row_loop_session_invariant lower today filename
                (λ s, references_resolve (flushed s)) rows
                (λ s stats row _, process_row_references s stats row)
                (open db) stats0 Hdb) as H.
  destruct (upload_excel_outcome db rows) as (s & Hs & [-> | ->]);
    rewrite Hs in H; [done|by apply references_resolve_persisted].
Qed.

(** An upload keeps the primary keys of both tables pairwise distinct,
    whether the request succeeds or fails. *)
Theorem upload_keeps_keys_distinct db rows :
  keys_distinct db →
  keys_distinct (snd (upload_excel db filename rows)).
Proof.
  intros Hdb.
  pose proof (row_loop_session_invariant lower today filename
                (λ s, keys_distinct (flushed s)) rows
                (λ s stats row _, process_row_keys s stats row)
                (open db) stats0 Hdb) as H.
  destruct (upload_excel_outcome db rows) as (s & Hs & [-> | ->]);
    rewrite Hs in H; [done|by apply keys_distinct_persisted].
Qed.

(** ** What an upload adds *)

Lemma process_row_Done_stats s stats row s' stats' :
  process_row s stats row = Done s' stats' →
  stats' = found_stats stats ∨ stats' = created_stats stats.
Proof.
  intros Heq. pose proof (process_row_step lower today filename s stats row) as H.
  rewrite Heq in H. inversion H; subst; eauto.
Qed.

Lemma row_loop_stats rows s stats s' stats' :
  row_loop s stats rows = Done s' stats' →
  applications_added stats' = (applications_added stats + Z.of_nat (length rows))%Z
  ∧ (new_applicants stats' + existing_applicants stats')%Z =
      (new_applicants stats + existing_applicants stats + Z.of_nat (length rows))%Z
  ∧ (existing_applicants stats ≤ existing_applicants stats')%Z.
Proof.
  revert s stats. induction rows as [|row rows IH]; intros s stats.
  - intros [= <- <-]. simpl. lia.
  - rewrite row_loop_cons.
    destruct (process_row s stats row) as [s1 stats1|] eqn:E; [|done].
    intros (H1 & H2 & H3)%IH.
    apply process_row_Done_stats in E as [-> | ->]; simpl in *; lia.
Qed.

Lemma process_row_Done_application s stats row s' stats' :
  process_row s stats row = Done s' stats' →
  ∃ app, applications (flushed s') = applications (flushed s) ++ [app]
         ∧ carries row app.
Proof.
  intros Heq. pose proof (process_row_step lower today filename s stats row) as H.
  rewrite Heq in H. inversion H as [a Hf|phone labor_id a Hf Hfree|]; subst.
  - rewrite flushed_add, applications_snoc. by eexists.
  - rewrite flushed_created, applications_snoc. by eexists.
Qed.

Lemma row_loop_applications rows s stats s' stats' :
  row_loop s stats rows = Done s' stats' →
  ∃ added, applications (flushed s') = applications (flushed s) ++ added
           ∧ Forall2 carries rows added.
Proof.
  revert s stats. induction rows as [|row rows IH]; intros s stats.
  - intros [= <- <-]. exists []. by rewrite app_nil_r.
  - rewrite row_loop_cons.
    destruct (process_row s stats row) as [s1 stats1|] eqn:E; [|done].
    intros (added & -> & Hall)%IH.
    apply process_row_Done_application in E as (app & -> & Happ).
    exists (app :: added). rewrite <- app_assoc. split; [done|].
    by constructor.
Qed.

(** On success the counters tell what was done: one application per
    row, each row counted once as new or as existing, and the applicants
    table grown by the number counted as new. *)
Theorem upload_success_counts db rows stats f db' :
  upload_excel db filename rows = (Success stats f, db') →
  f = filename
  ∧ applications_added stats = Z.of_nat (length rows)
  ∧ (new_applicants stats + existing_applicants stats)%Z = Z.of_nat (length rows)
  ∧ (0 ≤ new_applicants stats)%Z ∧ (0 ≤ existing_applicants stats)%Z
  ∧ Z.of_nat (length (applicants db')) =
      (Z.of_nat (length (applicants db)) + new_applicants stats)%Z
  ∧ length (applications db') = (length (applications db) + length rows)%nat.
Proof.
  intros Heq.
  assert (fst (upload_excel db filename rows) = Success stats f) as Hfst
    by (by rewrite Heq).
  assert (f = filename) as ->.
  { unfold Upload.upload_excel in Heq.
    destruct (Upload.row_loop _ _ _ _ _ _); simpl in Heq; congruence. }
  apply upload_excel_Success in Hfst as (s & Hloop & Hdb).
  rewrite Heq in Hdb. simpl in Hdb. subst db'.
  pose proof (row_loop_stats _ _ _ _ _ Hloop) as (H1 & H2 & H3).
  pose proof (row_loop_Done lower today filename _ _ _ _ _ Hloop)
    as (H4 & H5 & _).
  destruct (row_loop_Done_flushed lower today filename _ _ _ _ _ Hloop)
    as (added & H6 & H7).
  rewrite applicants_flushed, H6, length_app, H7. simpl in *.
  split_and!; (done || lia).
Qed.

(** On success the applications table is the old one followed by one
    application per row, in the order of the rows, each with the row's
    lower-cased position, the row's date (today when it has none) and the
    name of the file. *)
Theorem upload_appends_one_per_row db rows stats db' :
  upload_excel db filename rows = (Success stats filename, db') →
  ∃ added, applications db' = applications db ++ added
           ∧ Forall2 carries rows added.
Proof.
  intros Heq.
  assert (fst (upload_excel db filename rows) = Success stats filename) as Hfst
    by (by rewrite Heq).
  apply upload_excel_Success in Hfst as (s & Hloop & Hdb).
  rewrite Heq in Hdb. simpl in Hdb. subst db'.
  by apply row_loop_applications in Hloop.
Qed.

Lemma process_row_never_rewrites db s stats row :
  applicants db `prefix_of` applicants (persisted s)
  ∧ applications db `prefix_of` applications (persisted s) →
  applicants db `prefix_of`
    applicants (persisted (session_of (process_row s stats row)))
  ∧ applications db `prefix_of`
      applications (persisted (session_of (process_row s stats row))).
Proof.
  intros [Ha Hx].
  destruct (process_row s stats row) as [s1 stats1|e s1] eqn:E; simpl.
  - apply process_row_Done in E as [[-> _]|(a & Ha1 & _ & _ & [rs Hrs] & _)];
      [done|].
    rewrite Ha1, Hrs. split; (etransitivity; [done|by apply prefix_app_r]).
  - by apply process_row_Raised in E as (_ & -> & _).
Qed.

(** Stored rows are never rewritten or removed: whichever way an upload
    ends, the tables of before are a prefix of the tables of after. In
    particular the name and labor id of a known applicant stay as they
    were, whatever later rows say. *)
Theorem upload_never_rewrites db rows :
  applicants db `prefix_of` applicants (snd (upload_excel db filename rows))
  ∧ applications db `prefix_of` applications (snd (upload_excel db filename rows)).
Proof.
  assert (applicants db `prefix_of` applicants (persisted (open db))
          ∧ applications db `prefix_of` applications (persisted (open db)))
    as Hinit by done.
  pose proof (row_loop_session_invariant lower today filename
    (λ s, applicants db `prefix_of` applicants (persisted s)
          ∧ applications db `prefix_of` applications (persisted s)) rows
    (λ s stats row _, process_row_never_rewrites db s stats row)
    (open db) stats0 Hinit) as H.
  destruct (upload_excel_outcome db rows) as (s & Hs & Hdb).
  rewrite Hs in H. destruct H as [Ha Hx].
  destruct Hdb as [-> | ->]; [|done].
  rewrite applicants_flushed. split; [done|].
  etransitivity; [done|].
  destruct (applications_insert_applications_prefix (new s) (persisted s))
    as (added & Hadd & _).
  unfold flushed. rewrite Hadd. by apply prefix_app_r.
Qed.

(** In a batch in which every row has a phone no insert is refused: the
    lookup by phone comes before the insert, so the uniqueness constraint
    can only be met by a row whose cleaned phone is empty, and the request
    never answers with the database error of a refused insert. *)
Theorem upload_with_phones_is_never_refused db rows :
  Forall (λ row, clean_phone (phone_cell row) ≠ []) rows →
  fst (upload_excel db filename rows)
  ≠ HTTPException 500 (Database_error IntegrityError).
Proof.
  intros Hrows Hfail.
  destruct (upload_excel db filename rows) as [r db'] eqn:Heq.
  simpl in Hfail. subst r.
  apply upload_excel_fails
    in Heq as (pre & row & post & s & stats & -> & _ & Hrow & _).
  apply process_row_Raised in Hrow as (_ & _ & Hempty & _).
  rewrite Forall_app, Forall_cons in Hrows. by destruct Hrows as (_ & ? & _).
Qed.

(** ** Uploading a file again *)

Lemma first_by_labor_id_None db labor_id :
  first_by_labor_id db labor_id = None ↔
  ∀ a, a ∈ applicants db → Applicant.labor_id a ≠ labor_id.
Proof.
  split.
  - intros H a Hin Ha. apply list_elem_of_In in Hin.
    pose proof (find_none _ _ H a Hin) as Hf. simpl in Hf.
    by apply bool_decide_eq_false in Hf.
  - intros H. destruct (first_by_labor_id db labor_id) as [a|] eqn:E; [|done].
    apply first_by_labor_id_Some in E as [Hin Ha]. by destruct (H a Hin).
Qed.

Lemma find_applicant_known s phone labor_id :
  phone ≠ [] → known (applicants (persisted s)) phone labor_id →
  ∃ a, find_applicant s phone labor_id = Some a.
Proof.
  intros Hp Hk.
  destruct (first_by_phone (persisted s) phone) as [a|] eqn:E.
  { exists a. by apply find_applicant_by_phone. }
  rewrite find_applicant_by_labor_id by (by right).
  rewrite first_by_phone_None in E.
  destruct Hk as [(a & Hin & Ha)|(Hl & a & Hin & Ha)]; [by destruct (E a Hin)|].
  apply truthy_spec in Hl. rewrite Hl.
  destruct (first_by_labor_id (persisted s) labor_id) as [b|] eqn:El; [eauto|].
  rewrite first_by_labor_id_None in El. by destruct (El a Hin).
Qed.

Lemma find_applicant_Some_known s phone labor_id a :
  find_applicant s phone labor_id = Some a →
  known (applicants (persisted s)) phone labor_id.
Proof.
  unfold find_applicant.
  destruct (truthy phone); [destruct (first_by_phone _ _) as [b|] eqn:E|]; simpl.
  - intros _. apply first_by_phone_Some in E as [? ?]. left. eauto.
  - destruct (truthy labor_id) eqn:Hl; [|done].
    intros [? ?]%first_by_labor_id_Some. right.
    split; [by apply truthy_spec|eauto].
  - destruct (truthy labor_id) eqn:Hl; [|done].
    intros [? ?]%first_by_labor_id_Some. right.
    split; [by apply truthy_spec|eauto].
Qed.

Lemma known_mono (A B : list Applicant.t) phone labor_id :
  A `prefix_of` B → known A phone labor_id → known B phone labor_id.
Proof.
  intros [C ->] [(a & Hin & Ha)|(Hl & a & Hin & Ha)].
  - left. exists a. split; [|done]. apply elem_of_app. by left.
  - right. split; [done|]. exists a. split; [|done]. apply elem_of_app. by left.
Qed.

(** A row that went through is known to the tables from then on. *)
Lemma process_row_known s stats row s' stats' :
  process_row s stats row = Done s' stats' →
  known (applicants (persisted s')) (clean_phone (phone_cell row))
        (clean_text (labor_id_cell row)).
Proof.
  intros Heq. pose proof (process_row_step lower today filename s stats row) as H.
  rewrite Heq in H. inversion H as [a Hf|phone labor_id a Hf Hfree|]; subst.
  - by eapply find_applicant_Some_known.
  - left. exists a. simpl. rewrite applicants_insert_applications. simpl.
    split; [|done]. apply elem_of_app. right. by apply list_elem_of_singleton.
Qed.

Lemma row_loop_known rows s stats s' stats' :
  row_loop s stats rows = Done s' stats' →
  Forall (λ row, known (applicants (persisted s'))
                       (clean_phone (phone_cell row))
                       (clean_text (labor_id_cell row))) rows.
Proof.
  revert s stats. induction rows as [|row rows IH]; intros s stats; [done|].
  rewrite row_loop_cons.
  destruct (process_row s stats row) as [s1 stats1|] eqn:E; [|done].
  intros Hrest. constructor; [|by eapply IH].
  apply process_row_known in E.
  apply (row_loop_Done lower today filename) in Hrest as (_ & _ & _ & Hpre & _).
  by eapply known_mono.
Qed.

(** Rows that all have a phone and are all known go through without
    touching the applicants. *)
Lemma row_loop_all_known rows s stats :
  Forall (λ row, clean_phone (phone_cell row) ≠ []
                 ∧ known (applicants (persisted s))
                         (clean_phone (phone_cell row))
                         (clean_text (labor_id_cell row))) rows →
  ∃ s', row_loop s stats rows =
          Done s' (MkStats (new_applicants stats)
                           (existing_applicants stats + Z.of_nat (length rows))
                           (applications_added stats + Z.of_nat (length rows)))
        ∧ persisted s' = persisted s.
Proof.
  revert s stats. induction rows as [|row rows IH]; intros s stats Hall.
  - exists s. simpl. rewrite !Z.add_0_r. by destruct stats.
  - apply Forall_cons in Hall as [[Hp Hk] Hall].
    destruct (find_applicant_known s _ _ Hp Hk) as (a & Hf).
    rewrite row_loop_cons, (process_row_found lower today filename _ _ _ a Hf).
    destruct (IH (add s (application_of row a)) (found_stats stats) Hall)
      as (s' & -> & Hs').
    exists s'. split; [|done]. f_equal. unfold found_stats. simpl.
    f_equal; lia.
Qed.

(** Uploading again a file that went through, all of whose rows have a
    phone, creates no applicant: every row is counted as existing, the
    applicants table stays as it is, and one application per row is
    added once more. *)
Theorem upload_again_creates_nobody db rows stats db1 :
  Forall (λ row, clean_phone (phone_cell row) ≠ []) rows →
  upload_excel db filename rows = (Success stats filename, db1) →
  ∃ db2,
    upload_excel db1 filename rows =
      (Success (MkStats 0 (Z.of_nat (length rows)) (Z.of_nat (length rows)))
               filename, db2)
    ∧ applicants db2 = applicants db1
    ∧ length (applications db2) = (length (applications db1) + length rows)%nat.
Proof.
  intros Hphones Heq.
  assert (fst (upload_excel db filename rows) = Success stats filename) as Hfst
    by (by rewrite Heq).
  apply upload_excel_Success in Hfst as (s & Hloop & Hdb).
  rewrite Heq in Hdb. simpl in Hdb. subst db1.
  pose proof (row_loop_known _ _ _ _ _ Hloop) as Hknown.
  destruct (row_loop_all_known rows (open (flushed s)) stats0) as (s2 & Hloop2 & Hp2).
  { simpl. rewrite applicants_flushed.
    rewrite Forall_forall in Hphones, Hknown. apply Forall_forall.
    intros row Hrow. split; [by apply Hphones|by apply Hknown]. }
  exists (flushed s2). unfold Upload.upload_excel.
  fold (row_loop (open (flushed s)) stats0 rows). rewrite Hloop2. simpl.
  split; [done|].
  rewrite !applicants_flushed, Hp2. simpl. rewrite applicants_flushed.
  split; [done|].
  destruct (row_loop_Done_flushed lower today filename _ _ _ _ _ Hloop2)
    as (added & -> & Hlen).
  rewrite flushed_open, length_app. lia.
Qed.

(** The uniqueness constraint refuses an insert in one situation only.
    When a request answers with the database error of a refused insert,
    it met a row without a phone, and without a labor id that matches,
    while an applicant without a phone was stored (from before the batch,
    or created by an earlier row of it); the tables are then those of the
    last commit. *)
Theorem refused_insert_only_without_phone db rows status db' :
  upload_excel db filename rows =
    (HTTPException status (Database_error IntegrityError), db') →
  ∃ pre row post s stats b,
    rows = pre ++ row :: post
    ∧ row_loop (open db) stats0 pre = Done s stats
    ∧ clean_phone (phone_cell row) = []
    ∧ (clean_text (labor_id_cell row) = []
       ∨ first_by_labor_id (persisted s) (clean_text (labor_id_cell row)) = None)
    ∧ b ∈ applicants (persisted s) ∧ Applicant.phone b = []
    ∧ status = 500%Z ∧ db' = persisted s.
Proof.
  intros (pre & row & post & s & stats & -> & Hpre & Hrow & -> & _ & ->)
    %upload_excel_fails.
  pose proof (process_row_step lower today filename s stats row) as Hstep.
  rewrite Hrow in Hstep. inversion Hstep as [| |b Hf Hp Hin Hb]; subst.
  exists pre, row, post, s, stats, b. split_and!; try done.
  rewrite Hp, find_applicant_by_labor_id in Hf by (by left).
  destruct (truthy (clean_text (labor_id_cell row))) eqn:Ht; [by right|].
  left. by destruct (clean_text (labor_id_cell row)).
Qed.

End WithRuntime.
End UploadMore.

(* ===================================================================== *)
(** * The checks before the row loop *)
(* ===================================================================== *)

Module RequestFacts.
Import Text Cleaner Dates Store Upload Request.

Lemma missing_cols_nil header :
  missing_cols header = [] ↔
  ∀ col, col ∈ required_cols → col ∈ strip <$> header.
Proof.
  unfold missing_cols. split.
  - intros Hnil col Hcol.
    destruct (decide (col ∈ strip <$> header)) as [|Hno]; [done|].
    assert (col ∈ filter (λ col, col ∉ strip <$> header) required_cols) as Hin
      by (by apply list_elem_of_filter).
    rewrite Hnil in Hin. by apply elem_of_nil in Hin.
  - intros Hall.
    destruct (filter _ required_cols) as [|col rest] eqn:E; [done|].
    assert (col ∈ filter (λ col, col ∉ strip <$> header) required_cols)
      as [Hno Hreq]%list_elem_of_filter by (rewrite E; left).
    by destruct (Hno (Hall col Hreq)).
Qed.

Section WithRuntime.
Variable lower : str → str.
Variable today : date.

Abbreviation upload_request := (upload_request lower today).
Abbreviation upload_excel := (upload_excel lower today).

(** A request that is turned away before the row loop is answered with
    status 400 and leaves the tables as they were. *)
Lemma rejected_upload_changes_nothing db filename read status message db' :
  upload_request db filename read = (Rejected status message, db') →
  status = 400%Z ∧ db' = db.
Proof.
  unfold Request.upload_request.
  destruct (negb _); [by intros [= <- _ <-]|].
  destruct read as [e|df]; [by intros [= <- _ <-]|].
  destruct (missing_cols (columns df)); [|by intros [= <- _ <-]].
  by destruct (Upload.upload_excel _ _ _ _ _).
Qed.

(** A frame that lacks one of the three required columns (position,
    phone, name; the header is compared after trimming) is turned away
    with status 400 and a message that lists the missing columns, and
    nothing is stored. *)
Theorem missing_column_is_rejected db filename df col :
  endswith (lit ".xlsx") filename || endswith (lit ".xls") filename = true →
  col ∈ required_cols → col ∉ strip <$> columns df →
  upload_request db filename (inr df) =
    (Rejected 400 (lit "Missing columns: " ++
                   join_with (lit ", ") (missing_cols (columns df))), db)
  ∧ col ∈ missing_cols (columns df).
Proof.
  intros Hext Hreq Hno. unfold Request.upload_request. rewrite Hext. simpl.
  assert (col ∈ missing_cols (columns df)) as Hin
    by (by apply list_elem_of_filter).
  split; [|done].
  destruct (missing_cols (columns df)); [by apply elem_of_nil in Hin|done].
Qed.

(** A file with an Excel extension that parses and has the three
    required columns, whatever whitespace surrounds their names and
    whether or not the labor id and date columns are there, goes to the
    row loop, and the answer and the tables are those of the loop. *)
Theorem well_formed_upload_is_processed db filename df :
  endswith (lit ".xlsx") filename || endswith (lit ".xls") filename = true →
  (∀ col, col ∈ required_cols → col ∈ strip <$> columns df) →
  upload_request db filename (inr df) =
    (Processed (fst (upload_excel db filename (rows df))),
     snd (upload_excel db filename (rows df))).
Proof.
  intros Hext Hcols%missing_cols_nil. unfold Request.upload_request.
  rewrite Hext, Hcols. simpl. by destruct (Upload.upload_excel _ _ _ _ _).
Qed.

End WithRuntime.
End RequestFacts.

(* ===================================================================== *)
(** * The listing of positions *)
(* ===================================================================== *)

Module ListingFacts.
Import Text Store Listing.

Lemma str_le_nil_l b : str_le [] b.
Proof. done. Qed.

Lemma str_le_nil_r a : str_le a [] ↔ a = [].
Proof. destruct a; split; done. Qed.

Lemma str_le_cons x a y b :
  str_le (x :: a) (y :: b) ↔ (x < y)%N ∨ (x = y ∧ str_le a b).
Proof.
  unfold str_le. cbn [str_leb]. rewrite orb_True, andb_True.
  rewrite !Is_true_true, N.ltb_lt, N.eqb_eq. done.
Qed.

#[export] Instance str_le_refl : Reflexive str_le.
Proof. intros a. induction a as [|x a IH]; [done|]. apply str_le_cons. auto. Qed.

#[export] Instance str_le_trans : Transitive str_le.
Proof.
  intros a. induction a as [|x a IH]; intros b c; [done|].
  destruct b as [|y b]; [by intros ?%str_le_nil_r|].
  destruct c as [|z c]; [by intros _ ?%str_le_nil_r|].
  rewrite !str_le_cons. intros [?|[-> Hab]] [?|[-> Hbc]]; try (left; lia).
  right. split; [done|]. by eapply IH.
Qed.

#[export] Instance str_le_antisym : AntiSymm (=) str_le.
Proof.
  intros a. induction a as [|x a IH]; intros b.
  - by intros _ ->%str_le_nil_r.
  - destruct b as [|y b]; [by intros ?%str_le_nil_r|].
    rewrite !str_le_cons. intros [?|[-> Hab]] [?|[? Hba]]; try lia.
    f_equal. by apply IH.
Qed.

#[export] Instance str_le_total : Total str_le.
Proof.
  intros a. induction a as [|x a IH]; intros b; [by left|].
  destruct b as [|y b]; [by right|].
  rewrite !str_le_cons.
  destruct (N.lt_trichotomy x y) as [?|[->|?]]; [by left; left| |by right; left].
  destruct (IH b); [left|right]; by right.
Qed.

(** The positions on file, empty ones aside. *)
Lemma elem_of_position_set db p :
  p ∈ (list_to_set (filter (λ p, truthy p)
         (remove_dups (Application.position <$> applications db))) : gset str)
  ↔ p ≠ [] ∧ ∃ app, app ∈ applications db ∧ Application.position app = p.
Proof.
  rewrite elem_of_list_to_set, list_elem_of_filter, elem_of_remove_dups,
    list_elem_of_fmap.
  assert (truthy p ↔ p ≠ []) as -> by (by destruct p).
  split.
  - intros [Hp (app & Heq & Hin)]. split; [done|]. by exists app.
  - intros [Hp (app & Hin & Heq)]. split; [done|]. by exists app.
Qed.

(** The listing holds exactly the non-empty positions on file, each
    once, in ascending order of code points. *)
Theorem positions_listing db :
  (∀ p, p ∈ get_all_positions db ↔
        p ≠ [] ∧ ∃ app, app ∈ applications db ∧ Application.position app = p)
  ∧ NoDup (get_all_positions db)
  ∧ Sorted str_le (get_all_positions db).
Proof.
  unfold get_all_positions. split_and!.
  - intros p. rewrite merge_sort_Permutation, elem_of_elements.
    apply elem_of_position_set.
  - rewrite merge_sort_Permutation. apply NoDup_elements.
  - apply Sorted_merge_sort. apply _.
Qed.

(** The listing does not depend on the order, or on the number of times,
    the positions were ingested: two stores with the same positions on
    file give the same list. *)
Theorem positions_listing_order_free db1 db2 :
  (∀ p, p ∈ Application.position <$> applications db1
        ↔ p ∈ Application.position <$> applications db2) →
  get_all_positions db1 = get_all_positions db2.
Proof.
  intros Hsame. unfold get_all_positions.
  assert ((list_to_set (filter (λ p, truthy p)
             (remove_dups (Application.position <$> applications db1))) : gset str)
          = list_to_set (filter (λ p, truthy p)
             (remove_dups (Application.position <$> applications db2)))) as ->.
  { apply set_eq. intros p.
    rewrite !elem_of_list_to_set, !list_elem_of_filter, !elem_of_remove_dups.
    by rewrite Hsame. }
  done.
Qed.

End ListingFacts.

(* ===================================================================== *)
(** * More on the search *)
(* ===================================================================== *)

Module SearchMore.
Import Text Dates Store Search Integrity DatesFacts SearchFacts.

(** ** Matching a position *)

Lemma like_percent_nil p : like (37%N :: p) [] = like p [].
Proof. simpl. apply orb_false_r. Qed.

Lemma like_percent_cons p c text :
  like (37%N :: p) (c :: text) = like p (c :: text) || like (37%N :: p) text.
Proof. reflexivity. Qed.

Lemma like_percent_here p text : like p text = true → like (37%N :: p) text = true.
Proof.
  intros H. destruct text as [|c text].
  - by rewrite like_percent_nil.
  - by rewrite like_percent_cons, H.
Qed.


Lemma like_percent_end text : like [37%N] text = true.
Proof.
  induction text as [|c text IH]; [done|].
  rewrite like_percent_cons, IH. apply orb_true_r.
Qed.



Lemma contains_empty column : contains column [] = true.
Proof. unfold contains. apply (like_percent_here [37%N]), like_percent_end. Qed.


(** ** The unique-only loop *)

Lemma StronglySorted_sublist {A} (R : relation A) (l1 l2 : list A) :
  l1 `sublist_of` l2 → StronglySorted R l2 → StronglySorted R l1.
Proof.
  induction 1 as [|x l1 l2 Hsub IH|x l1 l2 Hsub IH]; intros Hs; [done|..].
  - inversion Hs as [|? ? Hs' Hall]; subst. constructor; [by apply IH|].
    rewrite Forall_forall in Hall. apply Forall_forall.
    intros y Hy. apply Hall. by eapply sublist_subseteq.
  - inversion Hs; subst. by apply IH.
Qed.

Lemma collapse_sublist seen results : collapse seen results `sublist_of` results.
Proof.
  revert seen. induction results as [|r results IH]; intros seen; simpl; [done|].
  destruct (decide _); [by apply sublist_cons|by apply sublist_skip].
Qed.

Lemma collapse_covers seen results r :
  r ∈ results →
  applicant_key (snd r) ∈ seen
  ∨ ∃ r', r' ∈ collapse seen results
          ∧ applicant_key (snd r') = applicant_key (snd r).
Proof.
  revert seen. induction results as [|x results IH]; intros seen;
    [by intros ?%elem_of_nil|].
  simpl. intros [->|Hr]%elem_of_cons.
  - destruct (decide _); [by left|]. right. exists x. split; [left|done].
  - destruct (decide (applicant_key (snd x) ∈ seen)) as [Hx|Hx].
    + by apply IH.
    + destruct (IH ({[applicant_key (snd x)]} ∪ seen) Hr)
        as [[Hk%elem_of_singleton|Hk]%elem_of_union|(r' & Hr' & Hk)].
      * right. exists x. split; [left|done].
      * by left.
      * right. exists r'. split; [by right|done].
Qed.

Lemma collapse_id seen results :
  NoDup ((applicant_key ∘ snd) <$> results) →
  (∀ r, r ∈ results → applicant_key (snd r) ∉ seen) →
  collapse seen results = results.
Proof.
  revert seen. induction results as [|x results IH]; intros seen Hnd Hseen;
    [done|].
  simpl. apply NoDup_cons in Hnd as [Hx Hnd].
  destruct (decide _) as [Hin|_]; [by destruct (Hseen x (list_elem_of_here _ _))|].
  f_equal. apply IH; [done|].
  intros r Hr [Hk%elem_of_singleton|Hk]%elem_of_union.
  - apply Hx. apply list_elem_of_fmap. exists r. by split.
  - by apply (Hseen r (list_elem_of_further _ _ _ Hr)).
Qed.

(** The unique-only loop leaves alone a result whose keys are pairwise
    distinct; so collapsing twice is collapsing once. *)
Theorem unique_results_fixed_point results :
  (NoDup ((applicant_key ∘ snd) <$> results) → unique_results results = results)
  ∧ unique_results (unique_results results) = unique_results results.
Proof.
  rewrite !unique_results_collapse. split.
  - intros Hnd. apply collapse_id; [done|]. intros r _. apply not_elem_of_empty.
  - apply collapse_id; [apply collapse_NoDup|].
    intros r _. apply not_elem_of_empty.
Qed.

(** The only exception of the date fields is the [ValueError] of
    [strptime]. *)
Lemma parse_bound_raises field e : parse_bound field = inl e → e = ValueError.
Proof.
  destruct field as [text|]; [|done]. simpl.
  destruct (truthy text); [|done]. destruct (strptime text); [done|].
  by intros [= <-].
Qed.

(** ** The join *)

Lemma filter_all {A} (P : A → Prop) `{∀ x, Decision (P x)} (l : list A) :
  (∀ x, P x) → filter P l = l.
Proof.
  intros HP. induction l as [|x l IH]; [done|].
  rewrite filter_cons_True by done. by f_equal.
Qed.

Lemma filter_no_key {A B} `{EqDecision B} (f : A → B) (l : list A) b :
  b ∉ f <$> l → filter (λ x, f x = b) l = [].
Proof.
  induction l as [|x l IH]; [done|]. rewrite fmap_cons, not_elem_of_cons.
  intros [Hx Hl]. rewrite filter_cons_False by done. by apply IH.
Qed.

Lemma filter_by_key {A B} `{EqDecision B} (f : A → B) (l : list A) a :
  NoDup (f <$> l) → a ∈ l → filter (λ x, f x = f a) l = [a].
Proof.
  induction l as [|x l IH]; [by intros _ ?%elem_of_nil|].
  rewrite fmap_cons, NoDup_cons. intros [Hx Hnd] [->|Ha]%elem_of_cons.
  - rewrite filter_cons_True by done. f_equal. by apply filter_no_key.
  - rewrite filter_cons_False; [by apply IH|].
    intros Hxa. apply Hx. rewrite Hxa. apply list_elem_of_fmap. by exists a.
Qed.

(** In well-formed tables every application is joined with exactly one
    applicant, its own. *)
Lemma join_well_formed db :
  keys_distinct db → references_resolve db →
  fst <$> join db = applications db
  ∧ ∀ r, r ∈ join db →
      snd r ∈ applicants db
      ∧ Applicant.id (snd r) = Application.applicant_id (fst r).
Proof.
  intros [Hkeys _] Hrefs. unfold join.
  assert (∀ apps, (∀ app, app ∈ apps → app ∈ applications db) →
    fst <$> (app ← apps;
             a ← filter (λ a, Applicant.id a = Application.applicant_id app)
                        (applicants db); [(app, a)]) = apps) as Hfst.
  { induction apps as [|app apps IH]; intros Hsub; [done|].
    rewrite bind_cons, fmap_app, IH
      by (intros; apply Hsub; by right).
    destruct (Hrefs app) as (a & Ha & Hid); [apply Hsub; by left|].
    rewrite <- Hid, (filter_by_key Applicant.id _ a Hkeys Ha). done. }
  split; [by apply Hfst|].
  intros [app a] (app' & Hr & Happ)%list_elem_of_bind.
  apply list_elem_of_bind in Hr as (a' & Hr & [Hid Ha]%list_elem_of_filter).
  apply list_elem_of_singleton in Hr as [= -> ->]. done.
Qed.

Section WithRuntime.
Variable lower : str → str.

Abbreviation query := (query lower).
Abbreviation search_results := (search_results lower).
Abbreviation search_applicants := (search_applicants lower).

(** The rows come back latest first, with or without the unique-only
    collapse. *)
Theorem results_latest_first db position start_date end_date unique_only results :
  search_results db position start_date end_date unique_only = inr results →
  StronglySorted date_desc results.
Proof.
  unfold Search.search_results.
  destruct (query db position start_date end_date) as [|matching] eqn:Hq; [done|].
  intros [= <-]. apply (query_sorted lower) in Hq.
  destruct unique_only; [|done].
  rewrite unique_results_collapse.
  by eapply StronglySorted_sublist; [apply collapse_sublist|].
Qed.

(** The collapse only drops rows, in place, and loses no key: what is
    returned with unique-only is a sub-list of what is returned without,
    and every row returned without it has its key on a returned row. *)
Theorem unique_only_loses_no_key db position start_date end_date unique matching :
  search_results db position start_date end_date true = inr unique →
  search_results db position start_date end_date false = inr matching →
  unique `sublist_of` matching
  ∧ ∀ r, r ∈ matching →
      ∃ r', r' ∈ unique ∧ applicant_key (snd r') = applicant_key (snd r).
Proof.
  unfold Search.search_results.
  destruct (query db position start_date end_date) as [|l]; [done|].
  intros [= <-] [= <-]. rewrite unique_results_collapse.
  split; [apply collapse_sublist|].
  intros r Hr. destruct (collapse_covers ∅ l r Hr) as [Hin|?]; [|done].
  by apply not_elem_of_empty in Hin.
Qed.

(** The answer "not found" is for a file with no row in it, and for
    nothing else: when an [HTTPException] leaves the handler, its status
    is 404 and its message that of line 251, the answer was not to be
    JSON, and the result of the query was empty. A JSON search never
    ends this way, whatever it matches. *)
Theorem not_found_only_for_empty_file db position start_date end_date
    unique_only output_format status message :
  search_applicants db position start_date end_date unique_only
                    output_format = inl (HTTPException status message) →
  status = 404%Z
  ∧ message = lit "No applicants found for this position"
  ∧ output_format ≠ lit "json"
  ∧ search_results db position start_date end_date unique_only = inr [].
Proof.
  unfold Search.search_applicants.
  destruct (search_results db position start_date end_date unique_only)
    as [e|results] eqn:Hres.
  - intros [= ->]. exfalso. revert Hres.
    unfold Search.search_results, Search.query.
    destruct (parse_bound start_date) as [e1|start] eqn:Hs.
    { by apply parse_bound_raises in Hs as ->. }
    destruct (parse_bound end_date) as [e2|end_] eqn:He; [|done].
    by apply parse_bound_raises in He as ->.
  - case_bool_decide as Hfmt; [done|].
    destruct (entry <$> results) as [|x l] eqn:E; [|done].
    intros [= <- <-]. apply fmap_nil_inv in E. by subst.
Qed.

(** On well-formed tables a search with an empty position and no dates
    returns every application, each once, with its own applicant. *)
Theorem empty_search_returns_everything db position results :
  keys_distinct db → references_resolve db →
  strip (lower position) = [] →
  search_results db position None None false = inr results →
  fst <$> results ≡ₚ applications db
  ∧ ∀ r, r ∈ results →
      snd r ∈ applicants db
      ∧ Applicant.id (snd r) = Application.applicant_id (fst r).
Proof.
  intros Hkeys Hrefs Hpos. unfold Search.search_results, Search.query. simpl.
  intros [= <-]. rewrite Hpos.
  destruct (join_well_formed db Hkeys Hrefs) as [Hfst Hjoin].
  assert (filter (selected [] None None) (join db) = join db) as ->.
  { apply filter_all. intros r. unfold selected. simpl. split; [|done].
    apply Is_true_true, contains_empty. }
  split.
  - by rewrite merge_sort_Permutation, Hfst.
  - intros r Hr. apply Hjoin. by rewrite merge_sort_Permutation in Hr.
Qed.

End WithRuntime.
End SearchMore.

(* ===================================================================== *)
(** * Dates out and in again *)
(* ===================================================================== *)

Module DatesMore.
Import Text Dates Iso.

Lemma re_d_digit k rest :
  (0 ≤ k ≤ 9)%Z → re_d ((48 + Z.to_N k)%N :: rest) = [(k, rest)].
Proof.
  intros Hk.
  assert (k = 0 ∨ k = 1 ∨ k = 2 ∨ k = 3 ∨ k = 4 ∨ k = 5 ∨ k = 6 ∨ k = 7
          ∨ k = 8 ∨ k = 9)%Z as Hcases by lia.
  repeat destruct Hcases as [->|Hcases]; try subst k; reflexivity.
Qed.

Lemma re_Y_digits a b c e rest :
  (0 ≤ a ≤ 9)%Z → (0 ≤ b ≤ 9)%Z → (0 ≤ c ≤ 9)%Z → (0 ≤ e ≤ 9)%Z →
  re_Y ((48 + Z.to_N a)%N :: (48 + Z.to_N b)%N :: (48 + Z.to_N c)%N
        :: (48 + Z.to_N e)%N :: rest)
  = [((10 * (10 * (10 * a + b) + c) + e)%Z, rest)].
Proof.
  intros Ha Hb Hc He. unfold re_Y, re_seq2.
  rewrite (re_d_digit a) by done. cbn [mbind list_bind app].
  rewrite (re_d_digit b) by done. cbn [mbind list_bind app].
  rewrite (re_d_digit c) by done. cbn [mbind list_bind app].
  rewrite (re_d_digit e) by done. reflexivity.
Qed.

Lemma re_Y_zero_padded y rest :
  (0 ≤ y ≤ 9999)%Z → re_Y (zero_padded 4 y ++ rest) = [(y, rest)].
Proof.
  intros Hy. cbn [zero_padded app].
  rewrite re_Y_digits by (Z.div_mod_to_equations; lia).
  do 2 f_equal. Z.div_mod_to_equations. lia.
Qed.

Lemma re_format_after_year s :
  re_format s = '(y, s1) ← re_Y s; re_after_year y s1.
Proof. reflexivity. Qed.

(** What follows the year, for every month and day number. *)
Lemma after_year y m d :
  (1 ≤ m ≤ 12)%Z → (1 ≤ d ≤ 31)%Z →
  head (re_after_year y
          (lit "-" ++ zero_padded 2 m ++ lit "-" ++ zero_padded 2 d))
  = Some ((y, m, d), []).
Proof.
  intros Hm Hd.
  assert (m = 1 ∨ m = 2 ∨ m = 3 ∨ m = 4 ∨ m = 5 ∨ m = 6 ∨ m = 7 ∨ m = 8 ∨ m
          = 9 ∨ m = 10 ∨ m = 11 ∨ m = 12)%Z
    as Hmonth by lia.
  assert (d = 1 ∨ d = 2 ∨ d = 3 ∨ d = 4 ∨ d = 5 ∨ d = 6 ∨ d = 7 ∨ d = 8 ∨ d
          = 9 ∨ d = 10 ∨ d = 11 ∨ d = 12 ∨ d = 13 ∨ d = 14 ∨ d = 15 ∨ d =
          16 ∨ d = 17 ∨ d = 18 ∨ d = 19 ∨ d = 20 ∨ d = 21 ∨ d = 22 ∨ d = 23
          ∨ d = 24 ∨ d = 25 ∨ d = 26 ∨ d = 27 ∨ d = 28 ∨ d = 29 ∨ d = 30 ∨
          d = 31)%Z
    as Hday by lia.
  clear Hm Hd.
  repeat destruct Hmonth as [->|Hmonth]; try subst m;
    repeat destruct Hday as [->|Hday]; try subst d; reflexivity.
Qed.

Lemma days_in_month_le y m : (days_in_month y m ≤ 31)%Z.
Proof.
  unfold days_in_month.
  repeat match goal with |- context [if ?b then _ else _] => destruct b end; lia.
Qed.

(** A calendar date written by [isoformat] is read back by [strptime]:
    the dates the JSON answer shows can be sent as search bounds and mean
    the same day. *)
Theorem strptime_isoformat y m d dt :
  make_date y m d = Some dt → strptime (isoformat dt) = Some dt.
Proof.
  unfold make_date. destruct (_ && _) eqn:Hvalid; [|done]. intros [= <-].
  assert (1 ≤ y ≤ 9999 ∧ 1 ≤ m ≤ 12 ∧ 1 ≤ d ≤ days_in_month y m)%Z
    as (Hy & Hm & Hd).
  { repeat (apply andb_true_iff in Hvalid as [Hvalid ?%Z.leb_le]).
    apply Z.leb_le in Hvalid. lia. }
  pose proof (days_in_month_le y m).
  unfold strptime, isoformat. rewrite re_format_after_year.
  cbn [year month day].
  rewrite re_Y_zero_padded by lia. cbn [mbind list_bind]. rewrite app_nil_r.
  rewrite after_year by lia.
  unfold make_date. by rewrite Hvalid.
Qed.


End DatesMore.

(* ===================================================================== *)
(** * More worked cases *)
(* ===================================================================== *)

Module MoreCases.
Import Text Cleaner Dates Store Upload Search Request Listing Iso Integrity.
Import Samples CleanerMore UploadMore RequestFacts ListingFacts SearchMore.
Import DatesMore.

Lemma clean_phone_spellings_agree_witness :
  clean_phone (Text (lit " 0911-223 344 ")) = lit "+251" ++ lit "911223344"
  ∧ clean_phone (Text (lit "+251 911 223344")) = lit "+251" ++ lit "911223344"
  ∧ clean_phone (Text (lit "911223344")) = lit "+251" ++ lit "911223344".
Proof.
  apply (clean_phone_spellings_agree (lit " 0911-223 344 ")
           (lit "+251 911 223344") (lit "911223344") (lit "911223344"));
    reflexivity.
Defined.

Lemma references_resolve_db_two : references_resolve db_two.
Proof.
  intros app Happ. exists abebe. split; [by apply list_elem_of_singleton|].
  apply elem_of_cons in Happ as [->|Happ]; [done|].
  by apply list_elem_of_singleton in Happ as ->.
Qed.

Lemma keys_distinct_db_two : keys_distinct db_two.
Proof. split; apply (bool_decide_unpack _); by vm_compute. Qed.

Lemma upload_keeps_references_witness :
  references_resolve (snd (upload_excel lower_ascii day0 db_two file0 two_rows)).
Proof.
  apply (upload_keeps_references lower_ascii day0 file0 db_two two_rows).
  exact references_resolve_db_two.
Defined.

Lemma upload_keeps_keys_distinct_witness :
  keys_distinct (snd (upload_excel lower_ascii day0 db_two file0 two_rows)).
Proof.
  apply (upload_keeps_keys_distinct lower_ascii day0 file0 db_two two_rows).
  exact keys_distinct_db_two.
Defined.

Lemma upload_success_counts_witness :
  let db' := snd (upload_excel lower_ascii day0 empty_db file0 two_rows) in
  let stats := MkStats 1 1 2 in
  file0 = file0
  ∧ applications_added stats = Z.of_nat (length two_rows)
  ∧ (new_applicants stats + existing_applicants stats)%Z
      = Z.of_nat (length two_rows)
  ∧ (0 ≤ new_applicants stats)%Z ∧ (0 ≤ existing_applicants stats)%Z
  ∧ Z.of_nat (length (applicants db')) =
      (Z.of_nat (length (applicants empty_db)) + new_applicants stats)%Z
  ∧ length (applications db') =
      (length (applications empty_db) + length two_rows)%nat.
Proof.
  intros db' stats.
  apply (upload_success_counts lower_ascii day0 file0 empty_db two_rows
           stats file0 db').
  vm_compute. reflexivity.
Defined.

Lemma upload_appends_one_per_row_witness :
  let db' := snd (upload_excel lower_ascii day0 empty_db file0 two_rows) in
  ∃ added, applications db' = applications empty_db ++ added
           ∧ Forall2 (carries lower_ascii day0 file0) two_rows added.
Proof.
  intros db'.
  apply (upload_appends_one_per_row lower_ascii day0 file0 empty_db two_rows
           (MkStats 1 1 2) db').
  vm_compute. reflexivity.
Defined.

Lemma upload_with_phones_is_never_refused_witness :
  fst (upload_excel lower_ascii day0 db_no_phone file0 two_rows)
  ≠ Upload.HTTPException 500 (Database_error IntegrityError).
Proof.
  apply (upload_with_phones_is_never_refused lower_ascii day0 file0
           db_no_phone two_rows).
  repeat constructor; by vm_compute.
Defined.

Lemma upload_again_creates_nobody_witness :
  let db1 := snd (upload_excel lower_ascii day0 empty_db file0 two_rows) in
  ∃ db2,
    upload_excel lower_ascii day0 db1 file0 two_rows =
      (Success (MkStats 0 (Z.of_nat (length two_rows))
                        (Z.of_nat (length two_rows))) file0, db2)
    ∧ applicants db2 = applicants db1
    ∧ length (applications db2) =
        (length (applications db1) + length two_rows)%nat.
Proof.
  intros db1.
  apply (upload_again_creates_nobody lower_ascii day0 file0 empty_db two_rows
           (MkStats 1 1 2) db1).
  - repeat constructor; by vm_compute.
  - vm_compute. reflexivity.
Defined.

Lemma refused_insert_only_without_phone_witness :
  let rows := [blank "Kebede"] in
  ∃ pre row post s stats b,
    rows = pre ++ row :: post
    ∧ row_loop lower_ascii day0 file0 (open db_no_phone) stats0 pre = Done s stats
    ∧ clean_phone (phone_cell row) = []
    ∧ (clean_text (labor_id_cell row) = []
       ∨ first_by_labor_id (persisted s) (clean_text (labor_id_cell row)) = None)
    ∧ b ∈ applicants (persisted s) ∧ Applicant.phone b = []
    ∧ 500%Z = 500%Z ∧ db_no_phone = persisted s.
Proof.
  intros rows.
  apply (refused_insert_only_without_phone lower_ascii day0 file0
           db_no_phone rows 500 db_no_phone).
  vm_compute. reflexivity.
Defined.

Lemma missing_column_is_rejected_witness :
  upload_request lower_ascii day0 db_two file0 (inr frame_no_phone) =
    (Rejected 400 (lit "Missing columns: " ++
                   join_with (lit ", ") (missing_cols (columns frame_no_phone))),
     db_two)
  ∧ PHONE_COL ∈ missing_cols (columns frame_no_phone).
Proof.
  apply (missing_column_is_rejected lower_ascii day0 db_two file0
           frame_no_phone PHONE_COL).
  - reflexivity.
  - apply (bool_decide_unpack _). by vm_compute.
  - apply (bool_decide_unpack _). by vm_compute.
Defined.

Lemma well_formed_upload_is_processed_witness :
  upload_request lower_ascii day0 db_two file0 (inr frame_spaced) =
    (Processed (fst (upload_excel lower_ascii day0 db_two file0 (rows frame_spaced))),
     snd (upload_excel lower_ascii day0 db_two file0 (rows frame_spaced))).
Proof.
  apply (well_formed_upload_is_processed lower_ascii day0 db_two file0
           frame_spaced).
  - reflexivity.
  - intros col Hcol.
    repeat (apply elem_of_cons in Hcol as [->|Hcol]);
      [..|by apply elem_of_nil in Hcol];
      apply (bool_decide_unpack _); by vm_compute.
Defined.

Lemma positions_listing_order_free_witness :
  get_all_positions db_mixed = get_all_positions db_mixed_reversed.
Proof.
  apply (positions_listing_order_free db_mixed db_mixed_reversed).
  intros p. simpl. rewrite !elem_of_cons. tauto.
Defined.

Lemma results_latest_first_witness :
  StronglySorted date_desc [(february, abebe); (january, abebe)].
Proof.
  apply (results_latest_first lower_ascii db_two (lit "driver") None None false).
  vm_compute. reflexivity.
Defined.

Lemma unique_only_loses_no_key_witness :
  [(february, abebe)] `sublist_of` [(february, abebe); (january, abebe)]
  ∧ ∀ r, r ∈ [(february, abebe); (january, abebe)] →
      ∃ r', r' ∈ [(february, abebe)]
            ∧ applicant_key (snd r') = applicant_key (snd r).
Proof.
  apply (unique_only_loses_no_key lower_ascii db_two (lit "driver") None None);
    vm_compute; reflexivity.
Defined.

Lemma not_found_only_for_empty_file_witness :
  404%Z = 404%Z
  ∧ lit "No applicants found for this position"
    = lit "No applicants found for this position"
  ∧ lit "excel" ≠ lit "json"
  ∧ search_results lower_ascii db_two (lit "pilot") None None false = inr [].
Proof.
  apply (not_found_only_for_empty_file lower_ascii db_two (lit "pilot")
           None None false (lit "excel")).
  vm_compute. reflexivity.
Defined.

Lemma empty_search_returns_everything_witness :
  fst <$> [(february, abebe); (january, abebe)] ≡ₚ applications db_two
  ∧ ∀ r, r ∈ [(february, abebe); (january, abebe)] →
      snd r ∈ applicants db_two
      ∧ Applicant.id (snd r) = Application.applicant_id (fst r).
Proof.
  apply (empty_search_returns_everything lower_ascii db_two (lit "  ")).
  - exact keys_distinct_db_two.
  - exact references_resolve_db_two.
  - reflexivity.
  - vm_compute. reflexivity.
Defined.

Lemma strptime_isoformat_witness :
  strptime (isoformat (Date 2024 2 29)) = Some (Date 2024 2 29).
Proof. apply (strptime_isoformat 2024 2 29). reflexivity. Defined.

(** File names: the extension is compared as written. *)
Example endswith_extension :
  endswith (lit ".xlsx") (lit "batch.xlsx") = true
  ∧ endswith (lit ".xls") (lit "old.xls") = true
  ∧ endswith (lit ".xlsx") (lit "BATCH.XLSX") = false
  ∧ endswith (lit ".xls") (lit "batch.csv") = false.
Proof. repeat split. Qed.

Example isoformat_pads : isoformat (Date 987 3 5) = lit "0987-03-05".
Proof. reflexivity. Qed.

Example positions_of_db_mixed :
  get_all_positions db_mixed = [lit "driver"; lit "guard"].
Proof. by vm_compute. Qed.

End MoreCases.
